(** * rest_api.py: record locking and the periodic points job

    A shallow embedding of [rest_api.py] (Flask handlers over an SQLite
    table [people], a Redis namespace of expiring lock keys, and the
    Celery periodic task [increment_points]), and the properties of the
    locking and maintenance logic.

    Python values are modelled by [pyval]; the SQLite connection, the
    Redis key space and a chronological log of the calls made to both are
    threaded through a small state-and-exception monad [M]. *)

From Stdlib Require Import ZArith String Ascii List Lia.
From Stdlib Require Import DecimalString DecimalZ DecimalPos.
From stdpp Require Import base option list gmap strings fin_maps.

Local Open Scope string_scope.
Local Open Scope Z_scope.

(** ** Python values *)

(** The JSON scalars a request body may carry for a field, as Python
    sees them after [request.json]: [None], an [int], a [str].  These are
    the values the development follows through the handlers; a float, a
    boolean, an array or an object, which [request.json] can yield as
    well, is not represented, and an [int] is taken without bound. *)
Inductive pyval : Type :=
  | PNone
  | PInt (z : Z)
  | PStr (s : string).

#[global] Instance pyval_eq_dec : EqDecision pyval.
Proof. solve_decision. Defined.

(** Python's [==] on these values: values of different types are never
    equal, in particular an [int] never equals a [str]. *)
Definition py_eq (a b : pyval) : bool := bool_decide (a = b).

(** [x in l] for a list [l]: some element is [==] to [x]. *)
Fixpoint py_in (x : pyval) (l : list pyval) : bool :=
  match l with
  | [] => false
  | y :: l' => py_eq x y || py_in x l'
  end.

(** [str(n)] for an [int]: the decimal numeral, with a leading minus
    sign for negative numbers. *)
Definition py_str (z : Z) : string := NilZero.string_of_int (Z.to_int z).

(** ** Byte strings and their [str()] *)

(** Redis hands keys back as [bytes]; a [string] of 8-bit characters
    models them. *)

Definition squote : ascii := ascii_of_nat 39.
Definition dquote : ascii := ascii_of_nat 34.
Definition backslash : ascii := ascii_of_nat 92.

Fixpoint contains (c : ascii) (s : string) : bool :=
  match s with
  | EmptyString => false
  | String d s' => Ascii.eqb c d || contains c s'
  end.

Definition hex_digit (n : nat) : ascii :=
  if (n <? 10)%nat then ascii_of_nat (48 + n) else ascii_of_nat (87 + n).

(** How [repr] of a [bytes] object renders one byte inside quotes [q]. *)
Definition escape_byte (q c : ascii) : string :=
  let n := nat_of_ascii c in
  if Ascii.eqb c q || Ascii.eqb c backslash then String backslash (String c "")
  else if (n =? 9)%nat then String backslash "t"
  else if (n =? 10)%nat then String backslash "n"
  else if (n =? 13)%nat then String backslash "r"
  else if (n <? 32)%nat || (127 <=? n)%nat then
    String backslash (String "x" (String (hex_digit (n / 16)) (String (hex_digit (n mod 16)) "")))
  else String c "".

Fixpoint escape_bytes (q : ascii) (s : string) : string :=
  match s with
  | EmptyString => ""
  | String c s' => escape_byte q c ++ escape_bytes q s'
  end.

(** [str(b)] for [b : bytes] is its [repr]: [b'...'], or [b"..."] when
    the bytes hold a single quote and no double quote. *)
Definition py_str_bytes (b : string) : string :=
  let q := if contains squote b && negb (contains dquote b) then dquote else squote in
  String "b" (String q (escape_bytes q b ++ String q "")).

(** A slice [s[start:stop]] with Python's treatment of negative and
    out-of-range bounds. *)
Definition py_slice_index (len i : Z) : Z :=
  if i <? 0 then Z.max (i + len) 0 else Z.min i len.

Definition py_slice (start stop : Z) (s : string) : string :=
  let len := Z.of_nat (String.length s) in
  let a := py_slice_index len start in
  let b := py_slice_index len stop in
  substring (Z.to_nat a) (Z.to_nat (b - a)) s.

(** [get_keys]: [[str(key)[7:-1] for key in redis_list]]. *)
Definition get_keys (redis_list : list string) : list pyval :=
  map (fun key => PStr (py_slice 7 (-1) (py_str_bytes key))) redis_list.

(** ** The [people] table *)

(** Modelled from the spec: [schema.sql] is not part of the sources.  The
    spec gives one table of records [(id, name, surname, birth, points)]
    whose [id] is an integer, unique and assigned by the store on
    creation; the table is a finite map from the integer [id] to the
    other four columns, each holding the value that was bound to it. *)
Record person : Type := {
  name : pyval;
  surname : pyval;
  birth : pyval;
  points : pyval
}.

#[global] Instance person_eq_dec : EqDecision person.
Proof. solve_decision. Defined.

Abbreviation table := (gmap Z person).

(** Comparing the integer [id] column with a bound text makes SQLite
    convert the text to a number first (the job relies on it: it binds
    the [str] keys of [get_keys] to [where id=?]).  The conversion is the
    engine's; the development needs one fact about it: the decimal
    numeral of an integer converts to that integer. *)
Class NumericAffinity : Type := {
  numeric_of_text : string -> option Z;
  numeric_of_decimal : forall z : Z, numeric_of_text (py_str z) = Some z
}.

(** The conversion restricted to decimal numerals, which is all the
    concrete runs below need. *)
Definition decimal_of_text (s : string) : option Z :=
  option_map Z.of_int (NilZero.int_of_string s).

#[global, refine] Instance decimal_affinity : NumericAffinity :=
  {| numeric_of_text := decimal_of_text |}.
Proof.
  intros z. unfold decimal_of_text, py_str.
  rewrite NilZero.isi.
  - simpl. f_equal. apply DecimalZ.of_to.
  - destruct z; simpl; try discriminate.
    intros E. injection E as E. now apply DecimalPos.Unsigned.to_uint_nonnil in E.
  - destruct z; simpl; try discriminate.
    intros E. injection E as E. now apply DecimalPos.Unsigned.to_uint_nonnil in E.
Defined.

(** ** SQL *)

(** [lastrowid] of an insert: one more than the largest id in use, and 1
    in an empty table (SQLite's choice for an integer primary key). *)
Definition next_rowid (t : table) : Z :=
  match (map_to_list t).*1 with
  | [] => 1
  | i :: l => foldr Z.max i l + 1
  end.

(** The SQL statements of the source, by the text they are written
    with. *)
Inductive stmt : Type :=
  | SelectAll         (* select id, name, surname, birth, points from people *)
  | SelectById        (* select id, name, surname, birth, points from people where id=? *)
  | SelectIdById      (* select id from people where id = ? *)
  | SelectPointsById  (* select points from people where id=? *)
  | InsertPerson      (* insert into people (name, surname, birth, points) values (?, ?, ?, ?) *)
  | DeleteById        (* delete from people where id=? *)
  | UpdateById        (* update people set name=?, surname=?, birth=?, points=? where id=? *)
  | UpdatePointsById. (* update people set points=? where id=? *)

Definition full_row (r : Z * person) : list pyval :=
  [PInt r.1; name r.2; surname r.2; birth r.2; points r.2].

Definition set_points (v : pyval) (p : person) : person :=
  {| name := name p; surname := surname p; birth := birth p; points := v |}.

(** What a cursor gives back: the rows of [fetchall()] and [lastrowid]. *)
Record cursor : Type := { fetchall : list (list pyval); lastrowid : Z }.

(** ** Redis *)

(** One key of the key space with its value and the time (in seconds) at
    which it expires.  A key is visible at time [now] while
    [now < expiry]; nothing removes it explicitly. *)
Record entry : Type := { e_key : string; e_value : string; e_expiry : Z }.

Definition live (now : Z) (e : entry) : bool := now <? e_expiry e.

(** [redis.keys(prefix + "*")]: the visible keys starting with [prefix],
    in the order the server enumerates them (the order of the list). *)
Definition keys_matching (now : Z) (prefix : string) (kv : list entry) : list string :=
  map e_key (List.filter (fun e => live now e && String.prefix prefix (e_key e)) kv).

(** [redis.setex(key, seconds, value)]: the key is overwritten and its
    expiry set to [seconds] from [now]. *)
Definition setex_at (now : Z) (key : string) (seconds : Z) (value : string)
    (kv : list entry) : list entry :=
  List.filter (fun e => negb (String.eqb (e_key e) key)) kv
    ++ [{| e_key := key; e_value := value; e_expiry := now + seconds |}].

(** ** State, log and exceptions *)

Inductive printed : Type :=
  | PrintStr (s : string)
  | PrintDict (d : list (string * pyval)).

(** The calls a handler makes on the two stores and on standard
    output, in the order they happen. *)
Inductive event : Type :=
  | EvExecute (q : stmt)   (* db.execute(q, ...) *)
  | EvCommit               (* db.commit() *)
  | EvKeys                 (* redis.keys("_key_*") *)
  | EvSetex                (* redis.setex(...) *)
  | EvPrint (line : printed).

(** [disk] is the committed table; [txn] the connection's view while it
    has uncommitted changes; [kv] the Redis key space. *)
Record state : Type := {
  disk : table;
  txn : option table;
  kv : list entry;
  log : list event
}.

Definition view (s : state) : table := default (disk s) (txn s).

Inductive exn : Type :=
  | KeyError (key : string)
  | IndexError
  | TypeError
  | ProgrammingError.

Inductive result (A : Type) : Type :=
  | Ok (a : A)
  | Raise (e : exn).
Arguments Ok {A} a.
Arguments Raise {A} e.

Definition M (A : Type) : Type := state -> result A * state.

#[global] Instance M_ret : MRet M := fun A a s => (Ok a, s).
#[global] Instance M_bind : MBind M := fun A B f m s =>
  match m s with
  | (Ok a, s') => f a s'
  | (Raise e, s') => (Raise e, s')
  end.

Definition raise {A : Type} (e : exn) : M A := fun s => (Raise e, s).

Definition emit (ev : event) : M unit := fun s =>
  (Ok tt, {| disk := disk s; txn := txn s; kv := kv s; log := log s ++ [ev] |}).

Definition db_read : M table := fun s => (Ok (view s), s).

Definition db_write (t : table) : M unit := fun s =>
  (Ok tt, {| disk := disk s; txn := Some t; kv := kv s; log := log s |}).

(** [db.commit()]. *)
Definition commit : M unit := fun s =>
  (Ok tt, {| disk := view s; txn := None; kv := kv s; log := log s ++ [EvCommit] |}).

(** [redis.keys("_key_*")]. *)
Definition redis_keys (now : Z) (prefix : string) : M (list string) := fun s =>
  (Ok (keys_matching now prefix (kv s)),
   {| disk := disk s; txn := txn s; kv := kv s; log := log s ++ [EvKeys] |}).

(** [redis.setex(key, seconds, value)]. *)
Definition redis_setex (now : Z) (key : string) (seconds : Z) (value : string) : M unit :=
  fun s =>
  (Ok tt, {| disk := disk s; txn := txn s;
             kv := setex_at now key seconds value (kv s);
             log := log s ++ [EvSetex] |}).

Definition print (line : printed) : M unit := emit (EvPrint line).

(** An application context: the connection is opened on first use and
    closed by [close_db] when the context ends, which drops whatever was
    not committed. *)
Definition close_db (s : state) : state :=
  {| disk := disk s; txn := None; kv := kv s; log := log s |}.

Definition app_context {A : Type} (body : M A) : M A := fun s =>
  let '(r, s') := body (close_db s) in (r, close_db s').

Section Store.
Context `{NumericAffinity}.

(** The row a bound parameter selects in [where id=?]: an [int] selects
    the row with that id, a [str] the row its text converts to, and
    [None] (SQL NULL) no row. *)
Definition rowid_of_param (v : pyval) : option Z :=
  match v with
  | PNone => None
  | PInt z => Some z
  | PStr s => numeric_of_text s
  end.

Definition lookup_param (v : pyval) (t : table) : option (Z * person) :=
  i ← rowid_of_param v; p ← t !! i; Some (i, p).

(** [db.execute(sql, params)]. *)
Definition execute (q : stmt) (params : list pyval) : M cursor :=
  t ← db_read;
  match q, params with
  | SelectAll, [] =>
      emit (EvExecute SelectAll);;
      mret {| fetchall := full_row <$> map_to_list t; lastrowid := 0 |}
  | SelectById, [uid] =>
      emit (EvExecute SelectById);;
      mret {| fetchall := option_list (full_row <$> lookup_param uid t); lastrowid := 0 |}
  | SelectIdById, [uid] =>
      emit (EvExecute SelectIdById);;
      mret {| fetchall := option_list ((fun r => [PInt r.1]) <$> lookup_param uid t);
              lastrowid := 0 |}
  | SelectPointsById, [uid] =>
      emit (EvExecute SelectPointsById);;
      mret {| fetchall := option_list ((fun r => [points r.2]) <$> lookup_param uid t);
              lastrowid := 0 |}
  | InsertPerson, [n; sn; b; p] =>
      let i := next_rowid t in
      emit (EvExecute InsertPerson);;
      db_write (<[i := {| name := n; surname := sn; birth := b; points := p |}]> t);;
      mret {| fetchall := []; lastrowid := i |}
  | DeleteById, [uid] =>
      emit (EvExecute DeleteById);;
      db_write (from_option (fun i => delete i t) t (rowid_of_param uid));;
      mret {| fetchall := []; lastrowid := 0 |}
  | UpdateById, [n; sn; b; p; uid] =>
      emit (EvExecute UpdateById);;
      db_write (from_option
        (fun i => alter (fun _ => {| name := n; surname := sn; birth := b; points := p |}) i t)
        t (rowid_of_param uid));;
      mret {| fetchall := []; lastrowid := 0 |}
  | UpdatePointsById, [p; uid] =>
      emit (EvExecute UpdatePointsById);;
      db_write (from_option (fun i => alter (set_points p) i t) t (rowid_of_param uid));;
      mret {| fetchall := []; lastrowid := 0 |}
  | _, _ => raise ProgrammingError
  end.

End Store.

(** ** Requests and responses *)

(** [request.json], a dict from field names to values. *)
Abbreviation request := (gmap string pyval).

(** The values [jsonify] is given under a key. *)
Inductive jval : Type :=
  | JVal (v : pyval)
  | JList (l : list pyval)
  | JRows (l : list (list pyval))
  | JDict (d : request).

(** A JSON response: the dict passed to [jsonify], in source order. *)
Definition response : Type := list (string * jval).

Definition msg (s : string) : string * jval := ("msg", JVal (PStr s)).

(** [d[key]]: the value, or [KeyError]. *)
Definition getitem (d : request) (key : string) : M pyval :=
  match d !! key with
  | Some v => mret v
  | None => raise (KeyError key)
  end.

(** [l[0]]: the first element, or [IndexError]. *)
Definition index0 {A : Type} (l : list A) : M A :=
  match l with
  | x :: _ => mret x
  | [] => raise IndexError
  end.

(** [random.randint(a, b)]: an integer of [a..b] picked from the
    generator's next raw output [raw]. *)
Definition randint (a b raw : Z) : Z := a + raw mod (b - a + 1).

(** [points += r] for an [int] [r], on the values of [pyval]: an [int]
    is added to, [None] and a [str] raise [TypeError]. *)
Definition iadd (v : pyval) (r : Z) : M pyval :=
  match v with
  | PInt p => mret (PInt (p + r))
  | PNone | PStr _ => raise TypeError
  end.

Definition handler : Type := Z -> request -> M response.

(** The loop of [check_if_all_exist]: is some required key absent? *)
Fixpoint some_missing (required : list string) (req : request) : bool :=
  match required with
  | [] => false
  | key :: rest =>
      if decide (req !! key = None) then true else some_missing rest req
  end.

Definition missing_response : response :=
  [msg "Request didn't contain obligatory parameters"].

Definition check_if_all_exist (required : list string) (fun_ : handler) : handler :=
  fun now req =>
    if some_missing required req then mret missing_response
    else fun_ now req.

Section Handlers.
Context `{NumericAffinity}.

(** *** [get_users] *)
Definition get_users : handler := fun now req =>
  cur ← execute SelectAll [];
  let users := fetchall cur in
  if decide (users = []) then mret [msg "Users not found"]
  else mret [msg "Users found"; ("users", JRows users)].

(** *** [get_user] *)
Definition get_user : handler := fun now req =>
  uid ← getitem req "id";
  cur ← execute SelectById [uid];
  let user := fetchall cur in
  if decide (user = []) then mret [msg "User not found"; ("id", JVal uid)]
  else mret [msg "User found"; ("user", JRows user)].

(** The key under which a record id is locked. *)
Definition lock_key (new_id : Z) : string := "_key_" ++ py_str new_id.

Definition expire_after : Z := 60 * 30.

(** *** [add_user] *)
Definition add_user : handler := fun now req =>
  n ← getitem req "name";
  sn ← getitem req "surname";
  b ← getitem req "birth";
  p ← getitem req "points";
  cur ← execute InsertPerson [n; sn; b; p];
  commit;;
  let new_id := lastrowid cur in
  let req' := <["id" := PInt new_id]> req in
  redis_setex now (lock_key new_id) expire_after "key";;
  mret [msg "New user added"; ("user", JDict req')].

(** *** [delete_user_by_id] *)
Definition delete_user_by_id : handler := fun now req =>
  redis_list ← redis_keys now "_key_";
  let new_keys := get_keys redis_list in
  uid ← getitem req "id";
  if py_in uid new_keys then
    mret [msg "User not available, try later"; ("id", JVal uid)]
  else
    cur ← execute SelectIdById [uid];
    let users := fetchall cur in
    if decide (users = []) then mret [msg "Nothing to delete"]
    else
      execute DeleteById [uid];;
      commit;;
      mret [msg "User deleted"; ("id", JVal uid)].

(** *** [update_user] *)
Definition update_user : handler := fun now r =>
  uid ← getitem r "id";
  cur ← execute SelectIdById [uid];
  let users := fetchall cur in
  if decide (users = []) then mret [msg "Nothing to update"]
  else
    redis_list ← redis_keys now "_key_";
    let new_keys := get_keys redis_list in
    if py_in uid new_keys then
      mret [msg "User not available, try later"; ("id", JVal uid)]
    else
      n ← getitem r "name";
      sn ← getitem r "surname";
      b ← getitem r "birth";
      p ← getitem r "points";
      let to_update := [n; sn; b; p; uid] in
      execute UpdateById to_update;;
      commit;;
      mret [msg "User updated"; ("user", JList to_update)].

(** *** [increment_points] *)

(** The body of [for key in new_keys]; [i] counts the iterations, the
    [i]-th call of [randint] consuming the [i]-th raw output [raw i]. *)
Fixpoint increment_loop (raw : nat -> Z) (i : nat) (new_keys : list pyval) : M unit :=
  match new_keys with
  | [] => mret tt
  | key :: rest =>
      cur ← execute SelectPointsById [key];
      row ← index0 (fetchall cur);
      pts ← index0 row;
      pts' ← iadd pts (randint 1 9 (raw i));
      execute UpdatePointsById [pts'; key];;
      commit;;
      print (PrintDict [("id", key); ("points after incrementation", pts')]);;
      increment_loop raw (S i) rest
  end.

Definition increment_points (now : Z) (raw : nat -> Z) : M unit :=
  app_context (
    redis_list ← redis_keys now "_key_";
    let new_keys := get_keys redis_list in
    if decide (new_keys = []) then print (PrintStr "There isn't new users")
    else increment_loop raw 0 new_keys).

(** ** Routes *)

Inductive route : Type := GET_users | GET_user | POST_user | DELETE_user | PUT_user.

Definition required_fields (rt : route) : list string :=
  match rt with
  | GET_users => []
  | GET_user => ["id"]
  | POST_user => ["name"; "surname"; "birth"; "points"]
  | DELETE_user => ["id"]
  | PUT_user => ["id"; "name"; "surname"; "birth"; "points"]
  end.

Definition view_function (rt : route) : handler :=
  match rt with
  | GET_users => get_users
  | GET_user => get_user
  | POST_user => add_user
  | DELETE_user => delete_user_by_id
  | PUT_user => update_user
  end.

(** A request served on route [rt] at time [now]: the decorated view
    function run in an application context of its own. *)
Definition serve (rt : route) (now : Z) (req : request) : M response :=
  app_context (check_if_all_exist (required_fields rt) (view_function rt) now req).

End Handlers.

(** ** Auxiliary notions used in the statements *)

(** The characters of a decimal numeral: digits and the minus sign. *)
Definition numeral_char (c : ascii) : bool :=
  let n := nat_of_ascii c in
  ((48 <=? n)%nat && (n <=? 57)%nat) || (n =? 45)%nat.

Fixpoint numeral (s : string) : bool :=
  match s with
  | EmptyString => true
  | String c s' => numeral_char c && numeral s'
  end.

(** The state with nothing stored and nothing logged. *)
Definition empty_state : state :=
  {| disk := ∅; txn := None; kv := []; log := [] |}.

(** The state a context leaves behind: committed table [t], no open
    transaction, key space [k], and [evs] added to the log of [s]. *)
Definition after (s : state) (t : table) (k : list entry) (evs : list event) : state :=
  {| disk := t; txn := None; kv := k; log := log s ++ evs |}.

(** What [get_keys(redis.keys("_key_*"))] evaluates to at time [now]. *)
Definition locked_keys (now : Z) (s : state) : list pyval :=
  get_keys (keys_matching now "_key_" (kv s)).

(** The same state with an empty Redis key space: no record locked. *)
Definition unlocked (s : state) : state :=
  {| disk := disk s; txn := txn s; kv := []; log := log s |}.

(** [lock(id)] of the registry: line 136 of [add_user], the one place
    where a lock is taken. *)
Definition lock (now : Z) (new_id : Z) (k : list entry) : list entry :=
  setex_at now (lock_key new_id) expire_after "key" k.

(** The entries stored under [key], expired or not. *)
Definition entries_of (key : string) (k : list entry) : list entry :=
  List.filter (fun e => String.eqb (e_key e) key) k.

(** [key] selects a record of [t] whose points are an [int]: the record
    with id [z]. *)
Definition selects_int `{NumericAffinity} (t : table) (key : pyval) (z : Z) : Prop :=
  rowid_of_param key = Some z
  /\ exists q p, t !! z = Some q /\ points q = PInt p.

(** The job can serve every lock listed at [now]: the keys listed select
    the records [zs], one record each, all with integer points. *)
Definition job_ready `{NumericAffinity} (now : Z) (s : state) (zs : list Z) : Prop :=
  Forall2 (selects_int (disk s)) (locked_keys now s) zs /\ NoDup zs.

(** Record [z] of [t'] is record [z] of [t] with [d] more points. *)
Definition bumped (t t' : table) (z d : Z) : Prop :=
  exists q p, t !! z = Some q /\ points q = PInt p
              /\ t' !! z = Some (set_points (PInt (p + d)) q).

(** *** A concrete run *)

(** The body of a [POST /user] request. *)
Definition alice : request :=
  list_to_map [("name", PStr "A"); ("surname", PStr "B");
               ("birth", PStr "2000-01-01"); ("points", PInt 10)].

(** One record created at time 0, a second at time 5; then, at time 10,
    the first deleted through a request carrying its id as an integer,
    which leaves its lock key behind. *)
Definition created_one : state := (serve POST_user 0 alice empty_state).2.
Definition created_two : state := (serve POST_user 5 alice created_one).2.
Definition deleted_first : state :=
  (serve DELETE_user 10 {[ "id" := PInt 1 ]} created_two).2.


(** The record the fields of a request describe. *)
Definition person_of (n sn b p : pyval) : person :=
  {| name := n; surname := sn; birth := b; points := p |}.

(** *** The outcomes of Update and Delete *)

(** [update_run now req s r t d]: serving [PUT /user] with body [req] at
    time [now] on state [s] answers [r], makes the calls [t] and leaves
    the table [d].  The four cases follow the body of [update_user] from
    top to bottom; the conditions of each are read on [s] and exclude
    those of the others. *)
Inductive update_run `{NumericAffinity} (now : Z) (req : request) (s : state) :
    result response -> list event -> table -> Prop :=
  | update_refused :
      some_missing (required_fields PUT_user) req = true ->
      update_run now req s (Ok missing_response) [] (disk s)
  | update_absent (uid : pyval) :
      some_missing (required_fields PUT_user) req = false ->
      req !! "id" = Some uid ->
      lookup_param uid (disk s) = None ->
      update_run now req s (Ok [msg "Nothing to update"])
        [EvExecute SelectIdById] (disk s)
  | update_locked (uid : pyval) (i : Z) (q : person) :
      some_missing (required_fields PUT_user) req = false ->
      req !! "id" = Some uid ->
      lookup_param uid (disk s) = Some (i, q) ->
      py_in uid (locked_keys now s) = true ->
      update_run now req s
        (Ok [msg "User not available, try later"; ("id", JVal uid)])
        [EvExecute SelectIdById; EvKeys] (disk s)
  | update_done (uid n sn b p : pyval) (i : Z) (q : person) :
      req !! "id" = Some uid -> req !! "name" = Some n ->
      req !! "surname" = Some sn -> req !! "birth" = Some b ->
      req !! "points" = Some p ->
      lookup_param uid (disk s) = Some (i, q) ->
      py_in uid (locked_keys now s) = false ->
      update_run now req s
        (Ok [msg "User updated"; ("user", JList [n; sn; b; p; uid])])
        [EvExecute SelectIdById; EvKeys; EvExecute UpdateById; EvCommit]
        (<[i := person_of n sn b p]> (disk s)).

(** The same for [DELETE /user], after the body of [delete_user_by_id]. *)
Inductive delete_run `{NumericAffinity} (now : Z) (req : request) (s : state) :
    result response -> list event -> table -> Prop :=
  | delete_refused :
      req !! "id" = None ->
      delete_run now req s (Ok missing_response) [] (disk s)
  | delete_locked (uid : pyval) :
      req !! "id" = Some uid ->
      py_in uid (locked_keys now s) = true ->
      delete_run now req s
        (Ok [msg "User not available, try later"; ("id", JVal uid)])
        [EvKeys] (disk s)
  | delete_absent (uid : pyval) :
      req !! "id" = Some uid ->
      py_in uid (locked_keys now s) = false ->
      lookup_param uid (disk s) = None ->
      delete_run now req s (Ok [msg "Nothing to delete"])
        [EvKeys; EvExecute SelectIdById] (disk s)
  | delete_done (uid : pyval) (i : Z) (q : person) :
      req !! "id" = Some uid ->
      py_in uid (locked_keys now s) = false ->
      lookup_param uid (disk s) = Some (i, q) ->
      delete_run now req s (Ok [msg "User deleted"; ("id", JVal uid)])
        [EvKeys; EvExecute SelectIdById; EvExecute DeleteById; EvCommit]
        (delete i (disk s)).

(** *** Notions for the further properties *)

(** Record [q'] has the name, surname and birth of record [q]. *)
Definition kept (q q' : person) : Prop :=
  name q' = name q /\ surname q' = surname q /\ birth q' = birth q.

(** Every key of the key space is the lock key of some id: the key
    space as [add_user] alone fills it. *)
Definition lock_entries (k : list entry) : Prop :=
  Forall (fun e => exists z, e_key e = lock_key z) k.

(** Record [q'] is record [q] with the same name, surname and birth, and
    with the same points or, both being integers, more points. *)
Definition grown (q q' : person) : Prop :=
  name q' = name q /\ surname q' = surname q /\ birth q' = birth q
  /\ (points q' = points q
      \/ exists p p', points q = PInt p /\ points q' = PInt p' /\ p < p').

(** Tables [t] and [t'] hold the same ids, each record of [t'] being the
    record of [t] grown. *)
Definition grown_table (t t' : table) : Prop :=
  forall z : Z, option_Forall2 grown (t !! z) (t' !! z).

(** After [created_one], a second record created with a text in
    [points], which [add_user] accepts: only the presence of the field is
    checked. *)
Definition created_text_points : state :=
  (serve POST_user 5 (<["points" := PStr "ten"]> alice) created_one).2.

(* ================================================================= *)
(** * Properties *)

(** ** Strings *)

Lemma append_cons (c : ascii) (s t : string) : String c s ++ t = String c (s ++ t).
Proof. reflexivity. Qed.

Lemma append_nil (t : string) : "" ++ t = t.
Proof. reflexivity. Qed.

Lemma string_app_assoc (s t u : string) : (s ++ t) ++ u = s ++ (t ++ u).
Proof.
  induction s as [|c s IH]; [reflexivity|].
  rewrite !append_cons. now rewrite IH.
Qed.

Lemma length_string_app (s t : string) :
  String.length (s ++ t) = (String.length s + String.length t)%nat.
Proof.
  induction s as [|c s IH]; [reflexivity|].
  rewrite append_cons. cbn [String.length]. now rewrite IH.
Qed.

Lemma substring_app_exact (s t : string) :
  substring 0 (String.length s) (s ++ t) = s.
Proof.
  induction s as [|c s IH].
  - rewrite append_nil. now destruct t.
  - rewrite append_cons. cbn [String.length substring]. now rewrite IH.
Qed.

Lemma contains_app (c : ascii) (s t : string) :
  contains c (s ++ t) = contains c s || contains c t.
Proof.
  induction s as [|d s IH]; [reflexivity|].
  rewrite append_cons. cbn [contains]. rewrite IH. apply orb_assoc.
Qed.

Lemma escape_bytes_app (q : ascii) (s t : string) :
  escape_bytes q (s ++ t) = escape_bytes q s ++ escape_bytes q t.
Proof.
  induction s as [|c s IH]; [reflexivity|].
  rewrite append_cons. cbn [escape_bytes]. rewrite IH.
  symmetry. apply string_app_assoc.
Qed.

Lemma numeral_string_of_uint (d : Decimal.uint) :
  numeral (NilEmpty.string_of_uint d) = true.
Proof. induction d; simpl; auto. Qed.

Lemma numeral_py_str (z : Z) : numeral (py_str z) = true.
Proof.
  unfold py_str, NilZero.string_of_int, NilZero.string_of_uint.
  destruct (Z.to_int z) as [d|d]; destruct d; simpl;
    auto using numeral_string_of_uint.
Qed.

Lemma escape_numeral_char (c : ascii) :
  numeral_char c = true ->
  escape_byte squote c = String c "" /\ Ascii.eqb squote c = false
  /\ Ascii.eqb dquote c = false.
Proof.
  destruct c as [[] [] [] [] [] [] [] []]; intros E;
    try discriminate E; repeat split; reflexivity.
Qed.

Lemma escape_numeral (s : string) :
  numeral s = true -> escape_bytes squote s = s /\ contains squote s = false.
Proof.
  induction s as [|c s IH]; cbn [numeral escape_bytes contains]; [auto|].
  intros [Hc Hs]%andb_prop.
  destruct (escape_numeral_char c Hc) as (-> & -> & _).
  destruct (IH Hs) as [-> ->]. auto.
Qed.

(** [str()] of the bytes of a key made of a fixed prefix and a numeral. *)
Lemma py_str_bytes_key (d : string) :
  numeral d = true ->
  py_str_bytes ("_key_" ++ d) = "b'_key_" ++ d ++ "'".
Proof.
  intros Hn. destruct (escape_numeral _ Hn) as [He Hc].
  unfold py_str_bytes. rewrite contains_app, Hc.
  replace (contains squote "_key_") with false by reflexivity.
  cbn [orb andb]. rewrite escape_bytes_app, He. reflexivity.
Qed.

(** [get_keys] gives back the numeral a lock key was built from. *)
Lemma slice_lock_key (z : Z) :
  py_slice 7 (-1) (py_str_bytes ("_key_" ++ py_str z)) = py_str z.
Proof.
  rewrite py_str_bytes_key by apply numeral_py_str.
  unfold py_slice, py_slice_index.
  rewrite length_string_app. rewrite length_string_app.
  set (n := String.length (py_str z)).
  replace (7 <? 0) with false by reflexivity.
  replace (-1 <? 0) with true by reflexivity.
  cbn [String.length].
  rewrite Z.min_l by lia. rewrite Z.max_l by lia.
  replace (Z.to_nat 7) with 7%nat by reflexivity.
  replace (Z.to_nat _) with n by lia.
  rewrite !append_cons, append_nil. cbn [substring]. apply substring_app_exact.
Qed.

(** ** The decorator [check_if_all_exist] *)


Lemma some_missing_false (required : list string) (req : request) :
  some_missing required req = false ->
  forall key, key ∈ required -> is_Some (req !! key).
Proof.
  induction required as [|k rest IH]; intros Hm key Hin.
  - now apply not_elem_of_nil in Hin.
  - cbn [some_missing] in Hm.
    destruct (decide (req !! k = None)) as [|Hk]; [discriminate|].
    apply elem_of_cons in Hin as [->|Hin]; [|auto].
    destruct (req !! k); [eauto | contradiction].
Qed.

Lemma py_in_get_keys_int (z : Z) (l : list string) : py_in (PInt z) (get_keys l) = false.
Proof. induction l as [|k l IH]; [reflexivity|]. cbn. exact IH. Qed.

Lemma py_in_get_keys_none (l : list string) : py_in PNone (get_keys l) = false.
Proof. induction l as [|k l IH]; [reflexivity|]. cbn. exact IH. Qed.

Lemma py_in_elem (x : pyval) (l : list pyval) : py_in x l = true <-> x ∈ l.
Proof.
  induction l as [|y l IH]; cbn [py_in].
  - split; [discriminate | intros E; now apply not_elem_of_nil in E].
  - rewrite orb_true_iff, IH, elem_of_cons. unfold py_eq.
    rewrite bool_decide_eq_true. tauto.
Qed.

(** Symbolic execution of a monadic body. *)
Ltac run_monad :=
  cbv [mbind M_bind mret M_ret raise redis_keys redis_setex getitem execute
       db_read db_write emit commit print index0 iadd];
  cbn [close_db view kv disk txn log default fetchall lastrowid].

Ltac finish_run :=
  repeat (case_decide; try congruence);
  unfold after; cbn; rewrite <- ?app_assoc; try reflexivity.

Section Runs.
Context `{NumericAffinity}.

(** *** The handlers in closed form *)

Lemma serve_missing (rt : route) (now : Z) (req : request) (s : state) :
  some_missing (required_fields rt) req = true ->
  serve rt now req s = (Ok missing_response, after s (disk s) (kv s) []).
Proof.
  intros Hm. unfold serve, app_context, check_if_all_exist. rewrite Hm.
  cbn. unfold after. now rewrite app_nil_r.
Qed.

Lemma serve_get_users (now : Z) (req : request) (s : state) :
  serve GET_users now req s =
  (Ok (if decide (disk s = ∅) then [msg "Users not found"]
       else [msg "Users found"; ("users", JRows (full_row <$> map_to_list (disk s)))]),
   after s (disk s) (kv s) [EvExecute SelectAll]).
Proof.
  unfold serve, app_context, check_if_all_exist.
  cbn [required_fields view_function some_missing]. unfold get_users. run_monad.
  destruct (decide (full_row <$> map_to_list (disk s) = [])) as [E|E];
    destruct (decide (disk s = ∅)) as [E'|E']; try reflexivity.
  - apply fmap_nil_inv in E. now apply map_to_list_empty_iff in E.
  - rewrite E', map_to_list_empty in E. now contradiction E.
Qed.

Lemma serve_delete (now : Z) (req : request) (s : state) (uid : pyval) :
  req !! "id" = Some uid ->
  serve DELETE_user now req s =
  if py_in uid (locked_keys now s) then
    (Ok [msg "User not available, try later"; ("id", JVal uid)],
     after s (disk s) (kv s) [EvKeys])
  else match lookup_param uid (disk s) with
       | None =>
           (Ok [msg "Nothing to delete"], after s (disk s) (kv s) [EvKeys; EvExecute SelectIdById])
       | Some (i, _) =>
           (Ok [msg "User deleted"; ("id", JVal uid)],
            after s (delete i (disk s)) (kv s) [EvKeys; EvExecute SelectIdById; EvExecute DeleteById; EvCommit])
       end.
Proof.
  intros Hid.
  unfold serve, app_context, check_if_all_exist, locked_keys.
  cbn [required_fields view_function some_missing]. rewrite Hid.
  destruct (decide _) as [|_]; [discriminate|].
  unfold delete_user_by_id. run_monad. rewrite Hid.
  destruct (py_in uid _); [reflexivity|].
  unfold lookup_param.
  destruct (rowid_of_param uid) as [i|] eqn:Hrow; cbn; [|finish_run].
  destruct (disk s !! i) as [p|] eqn:Hp; cbn; finish_run.
Qed.

Lemma serve_update (now : Z) (r : request) (s : state) (uid n sn b p : pyval) :
  r !! "id" = Some uid -> r !! "name" = Some n -> r !! "surname" = Some sn ->
  r !! "birth" = Some b -> r !! "points" = Some p ->
  serve PUT_user now r s =
  match lookup_param uid (disk s) with
  | None => (Ok [msg "Nothing to update"], after s (disk s) (kv s) [EvExecute SelectIdById])
  | Some (i, _) =>
      if py_in uid (locked_keys now s) then
        (Ok [msg "User not available, try later"; ("id", JVal uid)],
         after s (disk s) (kv s) [EvExecute SelectIdById; EvKeys])
      else
        (Ok [msg "User updated"; ("user", JList [n; sn; b; p; uid])],
         after s (<[i := person_of n sn b p]> (disk s)) (kv s)
           [EvExecute SelectIdById; EvKeys; EvExecute UpdateById; EvCommit])
  end.
Proof.
  intros Hid Hn Hsn Hb Hp.
  unfold serve, app_context, check_if_all_exist, locked_keys.
  cbn [required_fields view_function some_missing].
  rewrite Hid, Hn, Hsn, Hb, Hp.
  repeat (destruct (decide _) as [|_]; [discriminate|]).
  unfold update_user. run_monad. rewrite Hid.
  unfold lookup_param.
  destruct (rowid_of_param uid) as [i|] eqn:Hrow; cbn; [|finish_run].
  destruct (disk s !! i) as [q|] eqn:Hq; cbn; [|finish_run].
  case_decide; [discriminate|].
  destruct (py_in uid _); [finish_run|].
  rewrite Hn, Hsn, Hb, Hp. cbn.
  unfold after, person_of, close_db. rewrite <- !app_assoc. cbn.
  f_equal. f_equal.
  apply map_eq. intros j. rewrite lookup_alter, lookup_insert.
  destruct (decide (i = j)) as [->|]; [now rewrite Hq | reflexivity].
Qed.

Lemma serve_add (now : Z) (req : request) (s : state) (n sn b p : pyval) :
  req !! "name" = Some n -> req !! "surname" = Some sn ->
  req !! "birth" = Some b -> req !! "points" = Some p ->
  serve POST_user now req s =
  let new_id := next_rowid (disk s) in
  (Ok [msg "New user added"; ("user", JDict (<["id" := PInt new_id]> req))],
   after s (<[new_id := person_of n sn b p]> (disk s))
     (setex_at now (lock_key new_id) expire_after "key" (kv s))
     [EvExecute InsertPerson; EvCommit; EvSetex]).
Proof.
  intros Hn Hsn Hb Hp.
  unfold serve, app_context, check_if_all_exist.
  cbn [required_fields view_function some_missing].
  rewrite Hn, Hsn, Hb, Hp.
  repeat (destruct (decide _) as [|_]; [discriminate|]).
  unfold add_user. run_monad. rewrite Hn, Hsn, Hb, Hp. cbn.
  unfold after, person_of. now rewrite <- !app_assoc.
Qed.

End Runs.

(** ** The lock registry *)

Lemma prefix_lock_key (z : Z) : String.prefix "_key_" (lock_key z) = true.
Proof.
  unfold lock_key. rewrite !append_cons, append_nil. cbn.
  now destruct (py_str z).
Qed.

Lemma entries_of_setex (now : Z) (key : string) (seconds : Z) (value : string)
    (k : list entry) :
  entries_of key (setex_at now key seconds value k)
  = [{| e_key := key; e_value := value; e_expiry := now + seconds |}].
Proof.
  unfold entries_of, setex_at. rewrite List.filter_app. cbn.
  rewrite String.eqb_refl.
  replace (List.filter _ (List.filter _ k)) with (@nil entry); [reflexivity|].
  induction k as [|e k IH]; [reflexivity|]. cbn.
  destruct (String.eqb (e_key e) key) eqn:E; cbn; [exact IH|].
  now rewrite E.
Qed.

(** C8.  Locking an id twice, at [t1] and then at [t2], leaves exactly one
    entry under its key, and that entry expires [60*30 = 1800] seconds
    after the second call: at any time [now] the key is listed among the
    lock keys once if [now < t2 + 1800] and not at all otherwise,
    whatever [t1] was. *)
Theorem lock_twice_one_entry (id t1 t2 : Z) (k : list entry) :
  let k' := lock t2 id (lock t1 id k) in
  entries_of (lock_key id) k'
    = [{| e_key := lock_key id; e_value := "key"; e_expiry := t2 + 1800 |}]
  /\ forall now : Z,
       List.filter (String.eqb (lock_key id)) (keys_matching now "_key_" k')
       = if now <? t2 + 1800 then [lock_key id] else [].
Proof.
  cbn zeta. unfold lock. split; [apply entries_of_setex|].
  intros now.
  pose proof (entries_of_setex t2 (lock_key id) expire_after "key"
                (setex_at t1 (lock_key id) expire_after "key" k)) as E.
  revert E. generalize (setex_at t2 (lock_key id) expire_after "key"
                          (setex_at t1 (lock_key id) expire_after "key" k)).
  intros l. unfold entries_of, keys_matching.
  induction l as [|e l IH]; [discriminate|]. cbn [List.filter].
  destruct (String.eqb (e_key e) (lock_key id)) eqn:Ek.
  - intros E. injection E as -> E. cbn [e_key e_expiry live map].
    rewrite prefix_lock_key, andb_true_r.
    assert (Hrest : List.filter (String.eqb (lock_key id))
              (map e_key (List.filter
                 (fun e => live now e && String.prefix "_key_" (e_key e)) l)) = []).
    { clear -E. induction l as [|e l IH]; [reflexivity|].
      cbn [List.filter] in E |- *.
      destruct (String.eqb (e_key e) (lock_key id)) eqn:Ek; [discriminate|].
      destruct (_ && _); cbn [map List.filter]; [|auto].
      rewrite String.eqb_sym, Ek. auto. }
    clear IH. unfold live in Hrest |- *. cbn [e_expiry].
    change (t2 + expire_after) with (t2 + 1800).
    destruct (now <? t2 + 1800); cbn [map List.filter].
    + now rewrite String.eqb_refl, Hrest.
    + exact Hrest.
  - intros E. destruct (_ && _); cbn [map List.filter]; [|auto].
    rewrite String.eqb_sym, Ek. auto.
Qed.

(** ** Requests *)

Lemma present_field (required : list string) (req : request) (key : string) :
  some_missing required req = false -> key ∈ required ->
  exists v, req !! key = Some v.
Proof. intros Hm Hin. exact (some_missing_false _ _ Hm key Hin). Qed.

Lemma put_fields (req : request) :
  some_missing ["id"; "name"; "surname"; "birth"; "points"] req = false ->
  exists uid n sn b p,
    req !! "id" = Some uid /\ req !! "name" = Some n /\ req !! "surname" = Some sn
    /\ req !! "birth" = Some b /\ req !! "points" = Some p.
Proof.
  intros Hm.
  destruct (present_field _ _ "id" Hm) as [uid ?]; [set_solver|].
  destruct (present_field _ _ "name" Hm) as [n ?]; [set_solver|].
  destruct (present_field _ _ "surname" Hm) as [sn ?]; [set_solver|].
  destruct (present_field _ _ "birth" Hm) as [b ?]; [set_solver|].
  destruct (present_field _ _ "points" Hm) as [p ?]; [set_solver|].
  eauto 10.
Qed.

Section Claims.
Context `{NumericAffinity}.


(** C10.  [GET /users] answers [{"msg": "Users not found"}] as a normal
    result when the table is empty, and otherwise
    [{"msg": "Users found", "users": users}] where [users] holds one row
    for each record of the table and nothing else; the table is only
    read. *)
Theorem get_users_outcome (now : Z) (req : request) (s : state) :
  let users := full_row <$> map_to_list (disk s) in
  serve GET_users now req s =
    (Ok (if decide (disk s = ∅) then [msg "Users not found"]
         else [msg "Users found"; ("users", JRows users)]),
     after s (disk s) (kv s) [EvExecute SelectAll])
  /\ length users = size (disk s)
  /\ forall row, row ∈ users <->
       exists i p, disk s !! i = Some p
                   /\ row = [PInt i; name p; surname p; birth p; points p].
Proof.
  cbn zeta. split; [apply serve_get_users|]. split.
  - now rewrite length_fmap, length_map_to_list.
  - intros row. rewrite list_elem_of_fmap. split.
    + intros ([i p] & -> & Hin). apply elem_of_map_to_list in Hin. eauto.
    + intros (i & p & Hp & ->). exists (i, p).
      split; [reflexivity | now apply elem_of_map_to_list].
Qed.

(** C3.  The lock test of Update and Delete is [uid in new_keys] on the
    raw request value, and [new_keys] holds strings only: for an [id]
    given as a JSON integer the test is false whatever is locked, and
    both operations answer, write and log exactly as they do on the same
    state with no lock at all. *)
Theorem integer_id_never_locked (now : Z) (req : request) (s : state) (z : Z) :
  req !! "id" = Some (PInt z) ->
  py_in (PInt z) (locked_keys now s) = false
  /\ forall rt, rt = PUT_user \/ rt = DELETE_user ->
       (serve rt now req s).1 = (serve rt now req (unlocked s)).1
       /\ disk (serve rt now req s).2 = disk (serve rt now req (unlocked s)).2
       /\ log (serve rt now req s).2 = log (serve rt now req (unlocked s)).2.
Proof.
  intros Hid. split; [apply py_in_get_keys_int|].
  intros rt [-> | ->].
  - destruct (some_missing (required_fields PUT_user) req) eqn:Hm.
    + rewrite !serve_missing by assumption. auto.
    + destruct (put_fields req Hm) as (uid & n & sn & b & p & Hu & Hn & Hsn & Hb & Hp).
      rewrite Hid in Hu. injection Hu as <-.
      rewrite !(serve_update now req _ (PInt z) n sn b p) by assumption.
      unfold locked_keys. rewrite !py_in_get_keys_int. cbn [unlocked disk].
      destruct (lookup_param (PInt z) (disk s)) as [[i q]|]; auto.
  - rewrite !(serve_delete now req _ (PInt z)) by assumption.
    unfold locked_keys. rewrite !py_in_get_keys_int. cbn [unlocked disk].
    destruct (lookup_param (PInt z) (disk s)) as [[i q]|]; auto.
Qed.

(** C4.  Update and Delete apply their checks in fixed, opposite
    orders.  A [PUT /user] with its fields first runs the existence
    select; only if a record is found does it list the lock keys; only if
    the id is not among them does it run the update and commit; the
    answer and the table left are those of the step it stopped at.  A
    [DELETE /user] with its field first lists the lock keys; only if the
    id is not among them does it run the existence select; only if a
    record is found does it run the delete and commit.  So what an Update
    adds to the log is an initial segment of: existence select, lock
    listing, update, commit; what a Delete adds is an initial segment of:
    lock listing, existence select, delete, commit. *)
Theorem check_order (now : Z) (req : request) (s : state) :
  (exists t, log (serve PUT_user now req s).2 = (log s ++ t)%list
     /\ t `prefix_of` [EvExecute SelectIdById; EvKeys; EvExecute UpdateById; EvCommit]
     /\ update_run now req s (serve PUT_user now req s).1 t
          (disk (serve PUT_user now req s).2))
  /\ (exists t, log (serve DELETE_user now req s).2 = (log s ++ t)%list
     /\ t `prefix_of` [EvKeys; EvExecute SelectIdById; EvExecute DeleteById; EvCommit]
     /\ delete_run now req s (serve DELETE_user now req s).1 t
          (disk (serve DELETE_user now req s).2)).
Proof.
  split.
  - destruct (some_missing (required_fields PUT_user) req) eqn:Hm.
    + rewrite serve_missing by assumption. exists []. split; [reflexivity|].
      split; [apply prefix_nil|]. cbn [fst snd after disk].
      now apply update_refused.
    + destruct (put_fields req Hm) as (uid & n & sn & b & p & Hu & Hn & Hsn & Hb & Hp).
      rewrite (serve_update now req _ uid n sn b p) by assumption.
      destruct (lookup_param uid (disk s)) as [[i q]|] eqn:Hl;
        [destruct (py_in uid (locked_keys now s)) eqn:Hin|];
        eexists; (split; [reflexivity|]); cbn [fst snd after disk]; split.
      * now exists [EvExecute UpdateById; EvCommit].
      * eapply update_locked; eassumption.
      * reflexivity.
      * eapply update_done; eassumption.
      * now exists [EvKeys; EvExecute UpdateById; EvCommit].
      * eapply update_absent; eassumption.
  - destruct (some_missing (required_fields DELETE_user) req) eqn:Hm.
    + rewrite serve_missing by assumption. exists []. split; [reflexivity|].
      split; [apply prefix_nil|]. cbn [fst snd after disk].
      apply delete_refused.
      cbn [required_fields some_missing] in Hm.
      destruct (decide (req !! "id" = None)); [assumption | discriminate].
    + destruct (present_field _ _ "id" Hm) as [uid Hu]; [cbn; set_solver|].
      rewrite (serve_delete now req _ uid) by assumption.
      destruct (py_in uid (locked_keys now s)) eqn:Hin;
        [|destruct (lookup_param uid (disk s)) as [[i q]|] eqn:Hl];
        eexists; (split; [reflexivity|]); cbn [fst snd after disk]; split.
      * now exists [EvExecute SelectIdById; EvExecute DeleteById; EvCommit].
      * eapply delete_locked; eassumption.
      * reflexivity.
      * eapply delete_done; eassumption.
      * now exists [EvExecute DeleteById; EvCommit].
      * eapply delete_absent; eassumption.
Qed.

(** The outcome relations leave no choice: the state, the time and the
    body determine the answer, the calls and the table left. *)
Lemma update_run_functional (now : Z) (req : request) (s : state)
    (r r' : result response) (t t' : list event) (d d' : table) :
  update_run now req s r t d -> update_run now req s r' t' d' ->
  r = r' /\ t = t' /\ d = d'.
Proof.
  assert (Hpresent : forall uid n sn b p,
            req !! "id" = Some uid -> req !! "name" = Some n ->
            req !! "surname" = Some sn -> req !! "birth" = Some b ->
            req !! "points" = Some p ->
            some_missing (required_fields PUT_user) req = false).
  { intros uid n sn b p Hu Hn Hsn Hb Hp. cbn [required_fields some_missing].
    rewrite Hu, Hn, Hsn, Hb, Hp.
    repeat (destruct (decide _) as [|_]; [discriminate|]). reflexivity. }
  intros H1 H2.
  destruct H1; destruct H2;
    repeat match goal with
           | Hd : req !! "id" = Some _, Hm : some_missing _ req = true |- _ =>
               rewrite (Hpresent _ _ _ _ _ Hd ltac:(eassumption) ltac:(eassumption)
                          ltac:(eassumption) ltac:(eassumption)) in Hm
           end;
    try discriminate;
    repeat match goal with
           | Ha : req !! ?k = Some ?x, Hb : req !! ?k = Some ?y |- _ =>
               assert (y = x) by congruence; subst y; clear Hb
           end;
    try congruence;
    repeat match goal with
           | Ha : lookup_param ?u _ = Some (?i, _),
             Hb : lookup_param ?u _ = Some (?j, _) |- _ =>
               assert (j = i) by congruence; subst j; clear Hb
           end;
    auto.
Qed.

Lemma delete_run_functional (now : Z) (req : request) (s : state)
    (r r' : result response) (t t' : list event) (d d' : table) :
  delete_run now req s r t d -> delete_run now req s r' t' d' ->
  r = r' /\ t = t' /\ d = d'.
Proof.
  intros H1 H2.
  destruct H1; destruct H2;
    repeat match goal with
           | Ha : req !! ?k = Some ?x, Hb : req !! ?k = Some ?y |- _ =>
               assert (y = x) by congruence; subst y; clear Hb
           end;
    try congruence;
    repeat match goal with
           | Ha : lookup_param ?u _ = Some (?i, _),
             Hb : lookup_param ?u _ = Some (?j, _) |- _ =>
               assert (j = i) by congruence; subst j; clear Hb
           end;
    auto.
Qed.

End Claims.


(** ** The maintenance job *)

Lemma randint_range (a b raw : Z) : a <= b -> a <= randint a b raw <= b.
Proof.
  intros Hab. unfold randint.
  pose proof (Z.mod_pos_bound raw (b - a + 1)). lia.
Qed.

(** Every integer of the range is the outcome of some draw. *)
Lemma randint_onto (a b d : Z) : a <= d <= b -> randint a b (d - a) = d.
Proof. intros Hd. unfold randint. rewrite Z.mod_small by lia. lia. Qed.

Section Job.
Context `{NumericAffinity}.

(** The state the loop reaches after serving one key. *)
Lemma increment_loop_step (raw : nat -> Z) (i : nat) (key : pyval)
    (rest : list pyval) (t : table) (k : list entry) (l : list event)
    (z : Z) (q : person) (p : Z) :
  rowid_of_param key = Some z -> t !! z = Some q -> points q = PInt p ->
  let p' := PInt (p + randint 1 9 (raw i)) in
  increment_loop raw i (key :: rest) {| disk := t; txn := None; kv := k; log := l |}
  = increment_loop raw (S i) rest
      {| disk := <[z := set_points p' q]> t; txn := None; kv := k;
         log := l ++ [EvExecute SelectPointsById; EvExecute UpdatePointsById; EvCommit;
                      EvPrint (PrintDict [("id", key);
                                          ("points after incrementation", p')])] |}.
Proof.
  intros Hrow Hq Hp. cbn zeta. cbn [increment_loop].
  run_monad. unfold lookup_param. rewrite Hrow. cbn. rewrite Hq. cbn.
  rewrite Hp. cbn.
  rewrite <- !app_assoc. cbn.
  do 2 f_equal.
  apply map_eq. intros j. rewrite lookup_alter, lookup_insert.
  destruct (decide (z = j)) as [->|]; [now rewrite Hq | reflexivity].
Qed.

(** A key that selects no record stops the loop with [IndexError]. *)
Lemma increment_loop_missing (raw : nat -> Z) (i : nat) (key : pyval)
    (rest : list pyval) (t : table) (k : list entry) (l : list event) :
  lookup_param key t = None ->
  increment_loop raw i (key :: rest) {| disk := t; txn := None; kv := k; log := l |}
  = (Raise IndexError,
     {| disk := t; txn := None; kv := k; log := l ++ [EvExecute SelectPointsById] |}).
Proof.
  intros Hnone. cbn [increment_loop]. run_monad. rewrite Hnone. reflexivity.
Qed.

(** A record whose points are not an [int] stops it with [TypeError]. *)
Lemma increment_loop_not_int (raw : nat -> Z) (i : nat) (key : pyval)
    (rest : list pyval) (t : table) (k : list entry) (l : list event)
    (z : Z) (q : person) :
  lookup_param key t = Some (z, q) -> (forall p, points q <> PInt p) ->
  increment_loop raw i (key :: rest) {| disk := t; txn := None; kv := k; log := l |}
  = (Raise TypeError,
     {| disk := t; txn := None; kv := k; log := l ++ [EvExecute SelectPointsById] |}).
Proof.
  intros Hsome Hp. cbn [increment_loop]. run_monad. rewrite Hsome. cbn.
  destruct (points q) as [|p|str]; [reflexivity | now contradiction (Hp p) | reflexivity].
Qed.

Lemma lookup_param_Some (key : pyval) (t : table) (z : Z) (q : person) :
  lookup_param key t = Some (z, q) <-> rowid_of_param key = Some z /\ t !! z = Some q.
Proof.
  unfold lookup_param. destruct (rowid_of_param key) as [i|]; cbn.
  - destruct (t !! i) as [q'|] eqn:E; cbn.
    + split; [intros [= <- <-]; auto | intros [[= <-] E']; congruence].
    + split; [discriminate | intros [[= <-] E']; congruence].
  - split; [discriminate | intros [[=] _]].
Qed.


Lemma selects_int_insert (t : table) (key : pyval) (z z' : Z) (q : person) :
  z <> z' -> selects_int t key z' -> selects_int (<[z := q]> t) key z'.
Proof.
  intros Hne (Hrow & q' & p' & Hq & Hp). split; [exact Hrow|].
  exists q', p'. now rewrite lookup_insert_ne.
Qed.

Lemma Forall2_selects_insert (t : table) (keys : list pyval) (zs : list Z)
    (z : Z) (q : person) :
  z ∉ zs -> Forall2 (selects_int t) keys zs ->
  Forall2 (selects_int (<[z := q]> t)) keys zs.
Proof.
  intros Hz Hf. induction Hf as [|key z' keys zs Hs Hf IH]; [constructor|].
  apply not_elem_of_cons in Hz as [Hne Hz].
  constructor; [now apply selects_int_insert | auto].
Qed.

(** The loop over keys that all select records with integer points:
    it runs through them, adds the [i+j]-th draw to the [j]-th record
    and touches no other record. *)
Lemma increment_loop_ready (raw : nat -> Z) (keys : list pyval) :
  forall (zs : list Z) (t : table) (i : nat) (k : list entry) (l : list event),
  Forall2 (selects_int t) keys zs -> NoDup zs ->
  exists t' l',
    (forall rest,
       increment_loop raw i (keys ++ rest)%list
         {| disk := t; txn := None; kv := k; log := l |}
       = increment_loop raw (i + length keys) rest
           {| disk := t'; txn := None; kv := k; log := l' |})
    /\ (forall j z, zs !! j = Some z -> bumped t t' z (randint 1 9 (raw (i + j)%nat)))
    /\ (forall z, z ∉ zs -> t' !! z = t !! z).
Proof.
  induction keys as [|key keys IH]; intros zs t i k l Hf Hnd.
  - apply Forall2_nil_inv_l in Hf as ->. exists t, l. repeat split.
    + intros rest. cbn. now rewrite Nat.add_0_r.
    + intros j z Hj. now rewrite lookup_nil in Hj.
  - apply Forall2_cons_inv_l in Hf as (z & zs' & Hsel & Hf & ->).
    apply NoDup_cons in Hnd as [Hz Hnd].
    destruct Hsel as (Hrow & q & p & Hq & Hp).
    set (q1 := set_points (PInt (p + randint 1 9 (raw i))) q).
    destruct (IH zs' (<[z := q1]> t) (S i) k
                (l ++ [EvExecute SelectPointsById; EvExecute UpdatePointsById; EvCommit;
                       EvPrint (PrintDict [("id", key);
                         ("points after incrementation",
                          PInt (p + randint 1 9 (raw i)))])])%list
                (Forall2_selects_insert _ _ _ _ _ Hz Hf) Hnd)
      as (t' & l' & Hrun & Hbump & Hframe).
    exists t', l'. repeat split.
    + intros rest. change ((key :: keys) ++ rest)%list with (key :: (keys ++ rest))%list.
      rewrite (increment_loop_step raw i key _ t k l z q p Hrow Hq Hp).
      cbn zeta. rewrite Hrun. cbn [length]. now rewrite Nat.add_succ_r.
    + intros [|j] z' Hj; cbn in Hj.
      * injection Hj as <-. exists q, p. repeat split; try assumption.
        rewrite Nat.add_0_r, (Hframe z Hz). apply lookup_insert_eq.
      * destruct (Hbump j z' Hj) as (q' & p' & Hq' & Hp' & Ht').
        assert (z <> z') as Hne.
        { intros ->. apply Hz. eapply list_elem_of_lookup_2. exact Hj. }
        rewrite lookup_insert_ne in Hq' by exact Hne.
        exists q', p'. repeat split; try assumption.
        now rewrite Nat.add_succ_r.
    + intros z' Hz'. apply not_elem_of_cons in Hz' as [Hne Hz'].
      rewrite (Hframe z' Hz'). now apply lookup_insert_ne.
Qed.

(** The job is the loop over the listed keys, run in a context of its
    own after one call of [redis.keys]. *)
Lemma increment_points_unfold (now : Z) (raw : nat -> Z) (s : state) :
  increment_points now raw s =
  let s0 := {| disk := disk s; txn := None; kv := kv s; log := log s ++ [EvKeys] |} in
  let '(r, s') :=
    (if decide (locked_keys now s = []) then print (PrintStr "There isn't new users")
     else increment_loop raw 0 (locked_keys now s)) s0 in
  (r, close_db s').
Proof. reflexivity. Qed.

Lemma increment_loop_nil (raw : nat -> Z) (i : nat) (s : state) :
  increment_loop raw i [] s = (Ok tt, s).
Proof. reflexivity. Qed.

(** One run on a state where every listed lock selects a record with
    integer points. *)
Lemma increment_points_ready (now : Z) (raw : nat -> Z) (s : state) (zs : list Z) :
  job_ready now s zs ->
  exists s',
    increment_points now raw s = (Ok tt, s')
    /\ kv s' = kv s
    /\ (forall j z, zs !! j = Some z ->
          bumped (disk s) (disk s') z (randint 1 9 (raw j)))
    /\ (forall z, z ∉ zs -> disk s' !! z = disk s !! z).
Proof.
  intros [Hf Hnd]. rewrite increment_points_unfold. cbn zeta.
  destruct (decide (locked_keys now s = [])) as [E|E].
  - rewrite E in Hf. apply Forall2_nil_inv_l in Hf as ->.
    eexists. split; [reflexivity|]. cbn. repeat split.
    intros j z Hj. now rewrite lookup_nil in Hj.
  - destruct (increment_loop_ready raw _ zs (disk s) 0%nat (kv s)
                (log s ++ [EvKeys])%list Hf Hnd) as (t' & l' & Hrun & Hbump & Hframe).
    specialize (Hrun []). rewrite app_nil_r, increment_loop_nil in Hrun.
    rewrite Hrun. eexists. split; [reflexivity|]. cbn. auto.
Qed.



(** The loop never touches a record that no listed key selects, whether
    it runs to the end or stops on an exception. *)
Lemma increment_loop_frame (raw : nat -> Z) (z : Z) (keys : list pyval) :
  forall (i : nat) (t : table) (k : list entry) (l : list event),
  (forall key, key ∈ keys -> rowid_of_param key <> Some z) ->
  let s' := (increment_loop raw i keys {| disk := t; txn := None; kv := k; log := l |}).2 in
  disk s' !! z = t !! z /\ txn s' = None /\ kv s' = k.
Proof.
  induction keys as [|key keys IH]; intros i t k l Hkeys; cbn zeta.
  - cbn. auto.
  - destruct (lookup_param key t) as [[z' q]|] eqn:Hl.
    + pose proof Hl as Hl'. apply lookup_param_Some in Hl' as [Hrow Hq].
      destruct (points q) as [|p|str] eqn:Hp.
      * rewrite (increment_loop_not_int raw i key keys t k l z' q Hl) by congruence.
        cbn. auto.
      * rewrite (increment_loop_step raw i key keys t k l z' q p Hrow Hq Hp).
        cbn zeta.
        match goal with |- context [increment_loop raw (S i) keys ?st] =>
          destruct (IH (S i) (disk st) k (log st)) as (E1 & E2 & E3) end.
        { intros key' Hin. apply Hkeys. now apply list_elem_of_further. }
        cbn [disk log] in E1, E2, E3. rewrite E1. repeat split; try assumption.
        apply lookup_insert_ne. intros ->. apply (Hkeys key); [|exact Hrow].
        apply list_elem_of_here.
      * rewrite (increment_loop_not_int raw i key keys t k l z' q Hl) by congruence.
        cbn. auto.
    + rewrite (increment_loop_missing raw i key keys t k l Hl). cbn. auto.
Qed.

(** C7.  A record that no currently listed lock key selects is left as
    it is by a run of the job, in all its fields, whether the run ends
    normally or on an exception; the run also leaves the key space as it
    is. *)
Theorem job_leaves_unlocked (now : Z) (raw : nat -> Z) (s : state) (z : Z) :
  (forall key, key ∈ locked_keys now s -> rowid_of_param key <> Some z) ->
  disk (increment_points now raw s).2 !! z = disk s !! z
  /\ kv (increment_points now raw s).2 = kv s.
Proof.
  intros Hkeys. rewrite increment_points_unfold. cbn zeta.
  destruct (decide (locked_keys now s = [])) as [E|E]; [cbn; auto|].
  pose proof (increment_loop_frame raw z (locked_keys now s) 0%nat (disk s) (kv s)
                (log s ++ [EvKeys])%list Hkeys) as Hfr.
  cbn zeta in Hfr.
  destruct (increment_loop raw 0 (locked_keys now s) _) as [r s'].
  cbn in *. tauto.
Qed.


End Job.

(** ** Locked records *)

Section Locked.
Context `{NumericAffinity}.

(** A live lock key of record [z] puts the numeral of [z] in the list
    the handlers test. *)
Lemma locked_keys_live (now : Z) (s : state) (z : Z) :
  lock_key z ∈ keys_matching now "_key_" (kv s) ->
  py_in (PStr (py_str z)) (locked_keys now s) = true.
Proof.
  intros Hin. apply py_in_elem. unfold locked_keys, get_keys.
  apply list_elem_of_fmap. exists (lock_key z). split; [|exact Hin].
  unfold lock_key. now rewrite slice_lock_key.
Qed.

(** While the lock key of [z] is live, Update and Delete asked for the
    id as the string [str(z)] are refused and write nothing. *)
Lemma string_id_rejected_while_locked (now : Z) (r req : request) (s : state)
    (z : Z) (q : person) (n sn b p : pyval) :
  lock_key z ∈ keys_matching now "_key_" (kv s) ->
  disk s !! z = Some q ->
  r !! "id" = Some (PStr (py_str z)) -> r !! "name" = Some n ->
  r !! "surname" = Some sn -> r !! "birth" = Some b -> r !! "points" = Some p ->
  req !! "id" = Some (PStr (py_str z)) ->
  serve PUT_user now r s =
    (Ok [msg "User not available, try later"; ("id", JVal (PStr (py_str z)))],
     after s (disk s) (kv s) [EvExecute SelectIdById; EvKeys])
  /\ serve DELETE_user now req s =
    (Ok [msg "User not available, try later"; ("id", JVal (PStr (py_str z)))],
     after s (disk s) (kv s) [EvKeys]).
Proof.
  intros Hlive Hq Hid Hn Hsn Hb Hp Hid'.
  pose proof (locked_keys_live now s z Hlive) as Hin.
  rewrite (serve_update now r s (PStr (py_str z)) n sn b p) by assumption.
  rewrite (serve_delete now req s (PStr (py_str z))) by assumption.
  rewrite Hin. unfold lookup_param. cbn [rowid_of_param].
  rewrite numeric_of_decimal. cbn. rewrite Hq. cbn. auto.
Qed.

(** C5, as the code has it.  For an id that selects no record, Update
    answers "Nothing to update" after the existence select alone: the
    lock list is not read and nothing is written.  Delete reads the lock
    list first: it answers "User not available, try later" when the id
    is in that list and "Nothing to delete" otherwise; it writes nothing
    either way. *)
Theorem absent_id_outcomes (now : Z) (r req : request) (s : state)
    (uid n sn b p : pyval) :
  lookup_param uid (disk s) = None ->
  r !! "id" = Some uid -> r !! "name" = Some n -> r !! "surname" = Some sn ->
  r !! "birth" = Some b -> r !! "points" = Some p ->
  req !! "id" = Some uid ->
  serve PUT_user now r s =
    (Ok [msg "Nothing to update"], after s (disk s) (kv s) [EvExecute SelectIdById])
  /\ serve DELETE_user now req s =
    if py_in uid (locked_keys now s) then
      (Ok [msg "User not available, try later"; ("id", JVal uid)],
       after s (disk s) (kv s) [EvKeys])
    else
      (Ok [msg "Nothing to delete"],
       after s (disk s) (kv s) [EvKeys; EvExecute SelectIdById]).
Proof.
  intros Hnone Hid Hn Hsn Hb Hp Hid'.
  rewrite (serve_update now r s uid n sn b p) by assumption.
  rewrite (serve_delete now req s uid) by assumption.
  now rewrite Hnone.
Qed.

(** After one run on a ready state, a locked record that had 10 points
    has between 11 and 19. *)
Lemma ten_points_after_run (now : Z) (raw : nat -> Z) (s : state) (zs : list Z)
    (z : Z) (q : person) :
  job_ready now s zs -> z ∈ zs -> disk s !! z = Some q -> points q = PInt 10 ->
  exists q' p', disk (increment_points now raw s).2 !! z = Some q'
                /\ points q' = PInt p' /\ 11 <= p' <= 19.
Proof.
  intros Hr Hin Hq Hp.
  destruct (increment_points_ready now raw s zs Hr) as (s' & -> & _ & Hb & _).
  apply list_elem_of_lookup_1 in Hin as [j Hj].
  destruct (Hb j z Hj) as (q0 & p0 & Hq0 & Hp0 & Hs').
  rewrite Hq in Hq0. injection Hq0 as <-. rewrite Hp in Hp0. injection Hp0 as <-.
  cbn [snd]. rewrite Hs'. eexists _, _. split; [reflexivity|]. split; [reflexivity|].
  pose proof (randint_range 1 9 (raw j)). lia.
Qed.

(** [add_user] takes the lock of the id it returns, with [lock]. *)
Lemma add_user_locks (now : Z) (req : request) (s : state) (n sn b p : pyval) :
  req !! "name" = Some n -> req !! "surname" = Some sn ->
  req !! "birth" = Some b -> req !! "points" = Some p ->
  kv (serve POST_user now req s).2 = lock now (next_rowid (disk s)) (kv s)
  /\ lock_key (next_rowid (disk s))
       ∈ keys_matching now "_key_" (kv (serve POST_user now req s).2).
Proof.
  intros Hn Hsn Hb Hp. rewrite (serve_add now req s n sn b p) by assumption.
  cbn. split; [reflexivity|].
  unfold keys_matching, setex_at. rewrite List.filter_app, map_app.
  apply elem_of_app. right. cbn [List.filter e_key].
  rewrite prefix_lock_key. unfold live. cbn [e_expiry].
  replace (now <? now + expire_after) with true
    by (symmetry; apply Z.ltb_lt; unfold expire_after; lia).
  cbn. apply list_elem_of_here.
Qed.

(** Whatever the state and the time, an Update that names a record just
    created by the integer id the Create returned goes through. *)
Lemma integer_id_accepted_after_create (t0 now : Z) (req r : request) (s : state)
    (n sn b p n' sn' b' p' : pyval) :
  req !! "name" = Some n -> req !! "surname" = Some sn ->
  req !! "birth" = Some b -> req !! "points" = Some p ->
  let new_id := next_rowid (disk s) in
  let s1 := (serve POST_user t0 req s).2 in
  r !! "id" = Some (PInt new_id) -> r !! "name" = Some n' ->
  r !! "surname" = Some sn' -> r !! "birth" = Some b' -> r !! "points" = Some p' ->
  serve PUT_user now r s1 =
  (Ok [msg "User updated"; ("user", JList [n'; sn'; b'; p'; PInt new_id])],
   after s1 (<[new_id := person_of n' sn' b' p']> (disk s1)) (kv s1)
     [EvExecute SelectIdById; EvKeys; EvExecute UpdateById; EvCommit]).
Proof.
  intros Hn Hsn Hb Hp new_id s1 Hid Hn' Hsn' Hb' Hp'.
  rewrite (serve_update now r s1 (PInt new_id) n' sn' b' p') by assumption.
  unfold locked_keys. rewrite py_in_get_keys_int.
  unfold lookup_param. cbn [rowid_of_param]. cbn [mbind option_bind].
  subst s1. rewrite (serve_add t0 req s n sn b p) by assumption.
  cbn [snd after disk]. fold new_id. now rewrite lookup_insert_eq.
Qed.

End Locked.

(** ** The concrete run *)

Lemma created_one_state :
  serve POST_user 0 alice empty_state =
  (Ok [msg "New user added"; ("user", JDict (<["id" := PInt 1]> alice))],
   {| disk := {[ 1 := person_of (PStr "A") (PStr "B") (PStr "2000-01-01") (PInt 10) ]};
      txn := None;
      kv := [{| e_key := "_key_1"; e_value := "key"; e_expiry := 1800 |}];
      log := [EvExecute InsertPerson; EvCommit; EvSetex] |}).
Proof. vm_compute. reflexivity. Qed.

(** The string form of the id is refused while the lock lives and
    accepted from the moment it has expired. *)
Lemma string_id_run :
  (serve PUT_user 1799 (<["id" := PStr "1"]> alice) created_one).1
    = Ok [msg "User not available, try later"; ("id", JVal (PStr "1"))]
  /\ (serve DELETE_user 1799 {[ "id" := PStr "1" ]} created_one).1
    = Ok [msg "User not available, try later"; ("id", JVal (PStr "1"))]
  /\ (serve PUT_user 1800 (<["id" := PStr "1"]> alice) created_one).1
    = Ok [msg "User updated";
          ("user", JList [PStr "A"; PStr "B"; PStr "2000-01-01"; PInt 10; PStr "1"])]
  /\ (serve DELETE_user 1800 {[ "id" := PStr "1" ]} created_one).1
    = Ok [msg "User deleted"; ("id", JVal (PStr "1"))].
Proof. vm_compute. repeat split; reflexivity. Qed.

(** C1 on the code.  A record is created at time 0 and the response
    carries its id, the integer 1.  One second later its lock key is
    live, yet Update and Delete sent with that id, as it was returned,
    are carried out: the record is rewritten, or removed. *)
Theorem integer_id_mutates_locked_record :
  (serve POST_user 0 alice empty_state).1
    = Ok [msg "New user added"; ("user", JDict (<["id" := PInt 1]> alice))]
  /\ keys_matching 1 "_key_" (kv created_one) = [lock_key 1]
  /\ serve PUT_user 1 (<["id" := PInt 1]> (<["points" := PInt 99]> alice)) created_one
     = (Ok [msg "User updated";
            ("user", JList [PStr "A"; PStr "B"; PStr "2000-01-01"; PInt 99; PInt 1])],
        after created_one
          {[ 1 := person_of (PStr "A") (PStr "B") (PStr "2000-01-01") (PInt 99) ]}
          (kv created_one)
          [EvExecute SelectIdById; EvKeys; EvExecute UpdateById; EvCommit])
  /\ serve DELETE_user 1 {[ "id" := PInt 1 ]} created_one
     = (Ok [msg "User deleted"; ("id", JVal (PInt 1))],
        after created_one ∅ (kv created_one)
          [EvKeys; EvExecute SelectIdById; EvExecute DeleteById; EvCommit]).
Proof. vm_compute. repeat split; reflexivity. Qed.

(** C5 fails on Delete.  In [deleted_first] no record has id 1, yet a
    Delete for ["1"] reads the lock list, finds the key left behind and
    answers "User not available, try later", not "Nothing to delete". *)
Lemma delete_absent_id_reads_locks :
  lookup_param (PStr "1") (disk deleted_first) = None
  /\ serve DELETE_user 20 {[ "id" := PStr "1" ]} deleted_first
     = (Ok [msg "User not available, try later"; ("id", JVal (PStr "1"))],
        after deleted_first (disk deleted_first) (kv deleted_first) [EvKeys])
  /\ (serve DELETE_user 20 {[ "id" := PStr "1" ]} deleted_first).1
     <> Ok [msg "Nothing to delete"].
Proof.
  split; [vm_compute; reflexivity|]. split; [vm_compute; reflexivity|].
  vm_compute. discriminate.
Qed.



(** ** The theorems at the concrete run *)



(** The record created at time 0, asked for by its integer id at time 1. *)
Lemma integer_id_never_locked_witness :
  py_in (PInt 1) (locked_keys 1 created_one) = false
  /\ forall rt, rt = PUT_user \/ rt = DELETE_user ->
       (serve rt 1 (<["id" := PInt 1]> alice) created_one).1
         = (serve rt 1 (<["id" := PInt 1]> alice) (unlocked created_one)).1
       /\ disk (serve rt 1 (<["id" := PInt 1]> alice) created_one).2
         = disk (serve rt 1 (<["id" := PInt 1]> alice) (unlocked created_one)).2
       /\ log (serve rt 1 (<["id" := PInt 1]> alice) created_one).2
         = log (serve rt 1 (<["id" := PInt 1]> alice) (unlocked created_one)).2.
Proof.
  apply (integer_id_never_locked 1 (<["id" := PInt 1]> alice) created_one 1).
  vm_compute. reflexivity.
Defined.

(** Id ["1"] after record 1 was deleted, its lock key still live. *)
Lemma absent_id_outcomes_witness :
  serve PUT_user 20 (<["id" := PStr "1"]> alice) deleted_first =
    (Ok [msg "Nothing to update"],
     after deleted_first (disk deleted_first) (kv deleted_first)
       [EvExecute SelectIdById])
  /\ serve DELETE_user 20 {[ "id" := PStr "1" ]} deleted_first =
    if py_in (PStr "1") (locked_keys 20 deleted_first) then
      (Ok [msg "User not available, try later"; ("id", JVal (PStr "1"))],
       after deleted_first (disk deleted_first) (kv deleted_first) [EvKeys])
    else
      (Ok [msg "Nothing to delete"],
       after deleted_first (disk deleted_first) (kv deleted_first)
         [EvKeys; EvExecute SelectIdById]).
Proof.
  apply (absent_id_outcomes 20 (<["id" := PStr "1"]> alice) {[ "id" := PStr "1" ]}
           deleted_first (PStr "1") (PStr "A") (PStr "B") (PStr "2000-01-01") (PInt 10));
    vm_compute; reflexivity.
Defined.


(** Record 1 at time 1801, when its lock has expired and that of record
    2 has not. *)
Lemma job_leaves_unlocked_witness :
  disk (increment_points 1801 (fun _ => 3) created_two).2 !! 1 = disk created_two !! 1
  /\ kv (increment_points 1801 (fun _ => 3) created_two).2 = kv created_two.
Proof.
  apply (job_leaves_unlocked 1801 (fun _ => 3) created_two 1).
  intros key Hin.
  change (locked_keys 1801 created_two) with [PStr "2"] in Hin.
  apply list_elem_of_singleton in Hin. rewrite Hin. vm_compute. discriminate.
Defined.


(* ================================================================= *)
(** * Further properties of the handlers *)

(** ** Row ids *)

Lemma foldr_max_ge (i : Z) (l : list Z) (x : Z) :
  x ∈ i :: l -> x <= foldr Z.max i l.
Proof.
  revert x. induction l as [|y l IH]; cbn [foldr]; intros x Hin.
  - apply list_elem_of_singleton in Hin. lia.
  - assert (i <= foldr Z.max i l) by (apply IH, list_elem_of_here).
    apply elem_of_cons in Hin as [->|Hin]; [lia|].
    apply elem_of_cons in Hin as [->|Hin]; [lia|].
    assert (x <= foldr Z.max i l) by (apply IH; now apply list_elem_of_further).
    lia.
Qed.

(** The id an insert picks is above every id in use. *)
Lemma next_rowid_above (t : table) (i : Z) :
  is_Some (t !! i) -> i < next_rowid t.
Proof.
  intros [q Hq]. unfold next_rowid.
  assert (i ∈ (map_to_list t).*1) as Hin.
  { apply list_elem_of_fmap. exists (i, q). split; [reflexivity|].
    now apply elem_of_map_to_list. }
  destruct ((map_to_list t).*1) as [|k l]; [now apply not_elem_of_nil in Hin|].
  pose proof (foldr_max_ge k l i Hin). lia.
Qed.

Lemma next_rowid_fresh (t : table) : t !! next_rowid t = None.
Proof.
  destruct (t !! next_rowid t) as [q|] eqn:E; [|reflexivity].
  pose proof (next_rowid_above t (next_rowid t) (mk_is_Some _ _ E)). lia.
Qed.

Section Reads.
Context `{NumericAffinity}.

Lemma serve_get_user (now : Z) (req : request) (s : state) (uid : pyval) :
  req !! "id" = Some uid ->
  serve GET_user now req s =
  (Ok match lookup_param uid (disk s) with
      | None => [msg "User not found"; ("id", JVal uid)]
      | Some r => [msg "User found"; ("user", JRows [full_row r])]
      end,
   after s (disk s) (kv s) [EvExecute SelectById]).
Proof.
  intros Hid.
  unfold serve, app_context, check_if_all_exist.
  cbn [required_fields view_function some_missing]. rewrite Hid.
  destruct (decide _) as [|_]; [discriminate|].
  unfold get_user. run_monad. rewrite Hid.
  change (view (close_db s)) with (disk s).
  destruct (lookup_param uid (disk s)) as [r|] eqn:E; cbn; finish_run.
Qed.

End Reads.

(** ** Lock keys and the ids they carry *)

Lemma py_str_inj `{NumericAffinity} (z z' : Z) : py_str z = py_str z' -> z = z'.
Proof.
  intros E. pose proof (numeric_of_decimal z) as Hz.
  rewrite E, numeric_of_decimal in Hz. now injection Hz.
Qed.

Lemma string_app_inv_head (p s t : string) : p ++ s = p ++ t -> s = t.
Proof.
  induction p as [|c p IH]; [now rewrite !append_nil|].
  rewrite !append_cons. intros [= E]. auto.
Qed.

Lemma keys_matching_elem (now : Z) (prefix key : string) (k : list entry) :
  key ∈ keys_matching now prefix k <->
  exists e, e ∈ k /\ e_key e = key /\ live now e = true
            /\ String.prefix prefix key = true.
Proof.
  unfold keys_matching. rewrite list_elem_of_In, in_map_iff. split.
  - intros (e & <- & [Hin [Hl Hp]%andb_prop]%filter_In).
    exists e. rewrite list_elem_of_In. auto.
  - intros (e & Hin & <- & Hl & Hp). exists e. split; [reflexivity|].
    apply filter_In. rewrite <- list_elem_of_In, Hl, Hp. auto.
Qed.

Lemma setex_at_elem (t0 : Z) (key : string) (seconds : Z) (value : string)
    (k : list entry) (e : entry) :
  e ∈ setex_at t0 key seconds value k <->
  (e ∈ k /\ e_key e <> key)
  \/ e = {| e_key := key; e_value := value; e_expiry := t0 + seconds |}.
Proof.
  unfold setex_at. rewrite elem_of_app, list_elem_of_singleton.
  rewrite (list_elem_of_In _ e), filter_In, <- list_elem_of_In.
  rewrite negb_true_iff, String.eqb_neq. tauto.
Qed.

(** X4.  [get_keys] undoes the key [add_user] writes: from the keys
    ["_key_" + str(id)] of any list of ids, negative ones included, it
    gives back the numerals [str(id)], in order. *)
Theorem get_keys_of_lock_keys (zs : list Z) :
  get_keys (lock_key <$> zs) = (fun z => PStr (py_str z)) <$> zs.
Proof.
  unfold get_keys. induction zs as [|z zs IH]; [reflexivity|].
  cbn [fmap list_fmap map]. cbn [fmap list_fmap] in IH. rewrite IH.
  unfold lock_key at 1. now rewrite slice_lock_key.
Qed.

Section Further.
Context `{NumericAffinity}.

(** X1.  The two GET routes only read: whatever the request, table and
    key space are as before; and locks play no part in a read: the
    answer is the one given on the same state without any lock. *)
Theorem reads_leave_stores (now : Z) (req : request) (s : state) :
  (disk (serve GET_users now req s).2 = disk s
   /\ kv (serve GET_users now req s).2 = kv s
   /\ (serve GET_users now req s).1 = (serve GET_users now req (unlocked s)).1)
  /\ (disk (serve GET_user now req s).2 = disk s
      /\ kv (serve GET_user now req s).2 = kv s
      /\ (serve GET_user now req s).1 = (serve GET_user now req (unlocked s)).1).
Proof.
  split.
  - rewrite !serve_get_users. cbn. auto.
  - destruct (some_missing (required_fields GET_user) req) eqn:Hm.
    + rewrite !serve_missing by assumption. cbn. auto.
    + destruct (present_field _ _ "id" Hm) as [uid Hu]; [cbn; set_solver|].
      rewrite !(serve_get_user now req _ uid) by assumption. cbn. auto.
Qed.

(** X3.  Create then Get: the record just created is found, at any
    later time and locked or not, by the integer id the Create returned
    and by that id written as a string; the row is the id followed by the
    four values sent. *)
Theorem create_then_get (t0 now : Z) (req g : request) (s : state)
    (n sn b p uid : pyval) :
  req !! "name" = Some n -> req !! "surname" = Some sn ->
  req !! "birth" = Some b -> req !! "points" = Some p ->
  let new_id := next_rowid (disk s) in
  uid = PInt new_id \/ uid = PStr (py_str new_id) ->
  g !! "id" = Some uid ->
  (serve GET_user now g (serve POST_user t0 req s).2).1
  = Ok [msg "User found"; ("user", JRows [[PInt new_id; n; sn; b; p]])].
Proof.
  intros Hn Hsn Hb Hp new_id Huid Hg.
  rewrite (serve_get_user now g _ uid Hg).
  rewrite (serve_add t0 req s n sn b p) by assumption.
  cbn [fst snd after disk]. fold new_id.
  assert (rowid_of_param uid = Some new_id) as Hrow.
  { destruct Huid as [-> | ->]; [reflexivity | apply numeric_of_decimal]. }
  unfold lookup_param. rewrite Hrow. cbn. now rewrite lookup_insert_eq.
Qed.

(** X6.  Without the decorator the view functions of [GET /user],
    [DELETE /user] and [PUT /user] raise [KeyError] on a body without
    ["id"]; Delete has by then listed the lock keys, the two others have
    called nothing. *)
Theorem view_without_id_raises (now : Z) (req : request) (s : state) :
  req !! "id" = None ->
  get_user now req s = (Raise (KeyError "id"), s)
  /\ update_user now req s = (Raise (KeyError "id"), s)
  /\ delete_user_by_id now req s
     = (Raise (KeyError "id"),
        {| disk := disk s; txn := txn s; kv := kv s; log := log s ++ [EvKeys] |}).
Proof.
  intros Hid. unfold get_user, update_user, delete_user_by_id.
  run_monad. rewrite Hid. auto.
Qed.

(** *** The job on any state *)

Lemma grown_refl (q : person) : grown q q.
Proof. unfold grown. auto. Qed.

Lemma grown_trans (q1 q2 q3 : person) : grown q1 q2 -> grown q2 q3 -> grown q1 q3.
Proof.
  intros (N1 & S1 & B1 & P1) (N2 & S2 & B2 & P2). unfold grown.
  repeat split; try congruence.
  destruct P1 as [P1|(p & p' & Hp & Hp' & Hlt)];
    destruct P2 as [P2|(r & r' & Hr & Hr' & Hlt')].
  - left. congruence.
  - right. exists r, r'. repeat split; congruence.
  - right. exists p, p'. repeat split; congruence.
  - right. exists p, r'. repeat split; try assumption.
    rewrite Hp' in Hr. injection Hr as <-. lia.
Qed.

Lemma grown_table_refl (t : table) : grown_table t t.
Proof.
  intros z. destruct (t !! z); constructor. apply grown_refl.
Qed.

Lemma grown_table_trans (t1 t2 t3 : table) :
  grown_table t1 t2 -> grown_table t2 t3 -> grown_table t1 t3.
Proof.
  intros H12 H23 z. specialize (H12 z). specialize (H23 z).
  destruct H12 as [q1 q2 G12|]; inversion H23 as [? q3 G23|]; subst; constructor.
  eapply grown_trans; eassumption.
Qed.

Lemma grown_table_step (t : table) (z : Z) (q : person) (p d : Z) :
  t !! z = Some q -> points q = PInt p -> 1 <= d ->
  grown_table t (<[z := set_points (PInt (p + d)) q]> t).
Proof.
  intros Hq Hp Hd j. destruct (decide (z = j)) as [<-|Hne].
  - rewrite lookup_insert_eq, Hq. constructor. unfold grown. cbn.
    repeat split. right. exists p, (p + d). repeat split; [assumption | lia].
  - rewrite lookup_insert_ne by assumption.
    destruct (t !! j); constructor. apply grown_refl.
Qed.

(** However the loop ends, each record keeps its name, surname and
    birth, its points are unchanged or grown, no record appears or
    disappears, and the key space is untouched. *)
Lemma increment_loop_grows (raw : nat -> Z) (keys : list pyval) :
  forall (i : nat) (t : table) (k : list entry) (l : list event),
  let s' := (increment_loop raw i keys {| disk := t; txn := None; kv := k; log := l |}).2 in
  grown_table t (disk s') /\ txn s' = None /\ kv s' = k.
Proof.
  induction keys as [|key keys IH]; intros i t k l; cbn zeta.
  - cbn. split; [apply grown_table_refl | auto].
  - destruct (lookup_param key t) as [[z q]|] eqn:Hl.
    + pose proof Hl as Hl'. apply lookup_param_Some in Hl' as [Hrow Hq].
      destruct (points q) as [|p|str] eqn:Hp.
      * rewrite (increment_loop_not_int raw i key keys t k l z q Hl) by congruence.
        cbn. split; [apply grown_table_refl | auto].
      * rewrite (increment_loop_step raw i key keys t k l z q p Hrow Hq Hp).
        cbn zeta.
        match goal with |- context [increment_loop raw (S i) keys ?st] =>
          destruct (IH (S i) (disk st) k (log st)) as (E1 & E2 & E3) end.
        cbn [disk log] in E1, E2, E3. repeat split; try assumption.
        eapply grown_table_trans; [|exact E1].
        apply grown_table_step; try assumption.
        pose proof (randint_range 1 9 (raw i)). lia.
      * rewrite (increment_loop_not_int raw i key keys t k l z q Hl) by congruence.
        cbn. split; [apply grown_table_refl | auto].
    + rewrite (increment_loop_missing raw i key keys t k l Hl).
      cbn. split; [apply grown_table_refl | auto].
Qed.

(** The same for a whole run. *)
Lemma increment_points_grows (now : Z) (raw : nat -> Z) (s : state) :
  grown_table (disk s) (disk (increment_points now raw s).2).
Proof.
  rewrite increment_points_unfold. cbn zeta.
  destruct (decide (locked_keys now s = [])) as [E|E]; [cbn; apply grown_table_refl|].
  pose proof (increment_loop_grows raw (locked_keys now s) 0%nat (disk s) (kv s)
                (log s ++ [EvKeys])%list) as Hg.
  cbn zeta in Hg.
  destruct (increment_loop raw 0 (locked_keys now s) _) as [r s'].
  cbn in *. tauto.
Qed.

(** X10.  Whatever the state, the locks and the way the run ends, the
    job neither adds nor removes a record, leaves every record its name,
    surname and birth, and never lowers points that are an integer: a
    record with integer points has integer points, at least as many,
    after the run. *)
Theorem job_keeps_records (now : Z) (raw : nat -> Z) (s : state) :
  (forall z : Z,
     option_Forall2 kept (disk s !! z) (disk (increment_points now raw s).2 !! z))
  /\ (forall (z : Z) (q : person) (p : Z),
        disk s !! z = Some q -> points q = PInt p ->
        exists q' p',
          disk (increment_points now raw s).2 !! z = Some q'
          /\ points q' = PInt p' /\ p <= p').
Proof.
  pose proof (increment_points_grows now raw s) as Hg. split.
  - intros z. destruct (Hg z) as [q q' (N & S & B & _)|]; constructor.
    unfold kept. auto.
  - intros z q p Hq Hp. specialize (Hg z). rewrite Hq in Hg.
    inversion Hg as [? q' (_ & _ & _ & Hpts) E1 E2|]; subst.
    exists q'. destruct Hpts as [Hsame|(p0 & p' & Hp0 & Hp' & Hlt)].
    + exists p. repeat split; [congruence | lia].
    + exists p'. rewrite Hp in Hp0. injection Hp0 as <-.
      repeat split; [assumption | lia].
Qed.

(** What a request leaves in the key space. *)
Lemma serve_kv (rt : route) (now : Z) (req : request) (s : state) :
  kv (serve rt now req s).2
    = match rt with
      | POST_user =>
          if some_missing (required_fields POST_user) req then kv s
          else lock now (next_rowid (disk s)) (kv s)
      | _ => kv s
      end.
Proof.
  destruct (some_missing (required_fields rt) req) eqn:Hm.
  { rewrite serve_missing by assumption. destruct rt; try reflexivity.
    now rewrite Hm. }
  destruct rt.
  - now rewrite serve_get_users.
  - destruct (present_field _ _ "id" Hm) as [uid Hu]; [cbn; set_solver|].
    now rewrite (serve_get_user now req s uid Hu).
  - rewrite Hm.
    destruct (present_field _ _ "name" Hm) as [n ?]; [cbn; set_solver|].
    destruct (present_field _ _ "surname" Hm) as [sn ?]; [cbn; set_solver|].
    destruct (present_field _ _ "birth" Hm) as [b ?]; [cbn; set_solver|].
    destruct (present_field _ _ "points" Hm) as [p ?]; [cbn; set_solver|].
    now rewrite (serve_add now req s n sn b p) by assumption.
  - destruct (present_field _ _ "id" Hm) as [uid Hu]; [cbn; set_solver|].
    rewrite (serve_delete now req s uid Hu).
    destruct (py_in uid _); [reflexivity|].
    now destruct (lookup_param uid (disk s)) as [[i q]|].
  - destruct (put_fields req Hm) as (uid & n & sn & b & p & Hu & Hn & Hsn & Hb & Hp).
    rewrite (serve_update now req s uid n sn b p) by assumption.
    destruct (lookup_param uid (disk s)) as [[i q]|]; [|reflexivity].
    now destruct (py_in uid _).
Qed.

(** What a run of the job leaves in the key space. *)
Lemma increment_points_kv (now : Z) (raw : nat -> Z) (s : state) :
  kv (increment_points now raw s).2 = kv s.
Proof.
  rewrite increment_points_unfold. cbn zeta.
  destruct (decide (locked_keys now s = [])) as [E|E]; [reflexivity|].
  pose proof (increment_loop_grows raw (locked_keys now s) 0%nat (disk s) (kv s)
                (log s ++ [EvKeys])%list) as Hg.
  cbn zeta in Hg.
  destruct (increment_loop raw 0 (locked_keys now s) _) as [r s'].
  cbn in *. tauto.
Qed.

(** X7.  The key space changes in one way only: a Create with all its
    fields present sets the lock key of the new id.  Every other request
    on every route, and every run of the job, leaves it as it is; no key
    is ever removed, not even that of a record being deleted. *)
Theorem only_create_writes_redis (rt : route) (now : Z) (req : request)
    (raw : nat -> Z) (s : state) :
  kv (serve rt now req s).2
    = match rt with
      | POST_user =>
          if some_missing (required_fields POST_user) req then kv s
          else lock now (next_rowid (disk s)) (kv s)
      | _ => kv s
      end
  /\ kv (increment_points now raw s).2 = kv s.
Proof.
  split.
  - apply serve_kv.
  - apply increment_points_kv.
Qed.

(** X8.  When every key of the key space has expired (or there is
    none), a run of the job lists the keys, prints "There isn't new
    users" and does nothing else: no statement is executed and the table
    is as before. *)
Theorem job_without_locks (now : Z) (raw : nat -> Z) (s : state) :
  Forall (fun e => e_expiry e <= now) (kv s) ->
  increment_points now raw s
  = (Ok tt, after s (disk s) (kv s) [EvKeys; EvPrint (PrintStr "There isn't new users")]).
Proof.
  intros Hexp. rewrite increment_points_unfold. cbn zeta.
  assert (locked_keys now s = []) as ->.
  { unfold locked_keys, keys_matching.
    replace (List.filter _ (kv s)) with (@nil entry); [reflexivity|].
    induction Hexp as [|e k He Hk IH]; [reflexivity|]. cbn [List.filter].
    unfold live at 1. replace (now <? e_expiry e) with false; [exact IH|].
    symmetry. apply Z.ltb_ge. exact He. }
  destruct (decide _) as [_|E]; [|now contradiction E].
  cbn. unfold after. now rewrite <- app_assoc.
Qed.

(** X9.  A locked record whose stored points are [None] or a text stops
    the run with [TypeError] when its key is reached: the records listed
    before it keep their increments, and every other record, the
    offending one included, is left as it was. *)
Theorem job_stops_at_non_integer (now : Z) (raw : nat -> Z) (s : state)
    (pre post : list pyval) (bad : pyval) (zs : list Z) (z : Z) (q : person) :
  locked_keys now s = (pre ++ bad :: post)%list ->
  Forall2 (selects_int (disk s)) pre zs -> NoDup zs ->
  lookup_param bad (disk s) = Some (z, q) ->
  points q = PNone \/ (exists str, points q = PStr str) ->
  exists s',
    increment_points now raw s = (Raise TypeError, s')
    /\ (forall j z', zs !! j = Some z' ->
          exists d, 1 <= d <= 9 /\ bumped (disk s) (disk s') z' d)
    /\ (forall z', z' ∉ zs -> disk s' !! z' = disk s !! z')
    /\ disk s' !! z = Some q.
Proof.
  intros Hkeys Hf Hnd Hbad Hpts.
  assert (Hq : forall p, points q <> PInt p).
  { intros p. destruct Hpts as [-> | [str ->]]; discriminate. }
  rewrite increment_points_unfold. cbn zeta.
  destruct (decide (locked_keys now s = [])) as [E|_].
  { rewrite E in Hkeys. now destruct pre. }
  rewrite Hkeys.
  destruct (increment_loop_ready raw pre zs (disk s) 0%nat (kv s)
              (log s ++ [EvKeys])%list Hf Hnd) as (t' & l' & Hrun & Hbump & Hframe).
  rewrite Hrun.
  apply lookup_param_Some in Hbad as [Hrow Hz].
  assert (z ∉ zs) as Hout.
  { intros Hin. apply list_elem_of_lookup_1 in Hin as [j Hj].
    destruct (Hbump j z Hj) as (q0 & p0 & Hq0 & Hp0 & _).
    rewrite Hz in Hq0. injection Hq0 as <-. exact (Hq p0 Hp0). }
  assert (lookup_param bad t' = Some (z, q)) as Hbad'.
  { apply lookup_param_Some. split; [exact Hrow|]. now rewrite Hframe. }
  rewrite (increment_loop_not_int raw _ bad post t' (kv s) l' z q Hbad' Hq).
  eexists. split; [reflexivity|]. cbn. split; [|split; [exact Hframe|]].
  - intros j z' Hj. exists (randint 1 9 (raw j)).
    split; [now apply randint_range | exact (Hbump j z' Hj)].
  - now rewrite Hframe.
Qed.

End Further.

(** ** The life of a lock, seen through string ids *)

Section Lifecycle.
Context `{NumericAffinity}.

Lemma lock_key_inj (z z' : Z) : lock_key z = lock_key z' -> z = z'.
Proof. unfold lock_key. intros E%string_app_inv_head. now apply py_str_inj. Qed.

(** A key set at [t0] for [seconds] is listed until [t0 + seconds]. *)
Lemma setex_listed (t0 now : Z) (prefix key : string) (seconds : Z) (value : string)
    (k : list entry) :
  now < t0 + seconds -> String.prefix prefix key = true ->
  key ∈ keys_matching now prefix (setex_at t0 key seconds value k).
Proof.
  intros Hnow Hp. apply keys_matching_elem.
  exists {| e_key := key; e_value := value; e_expiry := t0 + seconds |}.
  split; [apply setex_at_elem; now right|]. cbn. split; [reflexivity|].
  split; [|exact Hp]. unfold live. cbn. now apply Z.ltb_lt.
Qed.

(** In a key space of lock keys, the numeral of [z] is in the list the
    handlers test only if the lock key of [z] is listed. *)
Lemma locked_keys_numeral (now : Z) (s : state) (str : string) :
  lock_entries (kv s) ->
  py_in (PStr str) (locked_keys now s) = true ->
  exists z, str = py_str z /\ lock_key z ∈ keys_matching now "_key_" (kv s).
Proof.
  intros Hle Hin. apply py_in_elem in Hin. unfold locked_keys, get_keys in Hin.
  apply list_elem_of_fmap in Hin as (key & [= ->] & Hkey).
  pose proof Hkey as Hkey'.
  apply keys_matching_elem in Hkey' as (e & He & <- & _).
  unfold lock_entries in Hle. rewrite Forall_forall in Hle.
  destruct (Hle e He) as [z Hz]. exists z. rewrite Hz in Hkey |- *.
  split; [|exact Hkey]. unfold lock_key. now rewrite slice_lock_key.
Qed.

(** X11.  A record just created is refused to Update and Delete that
    name it by its id written as a string, at every time before
    [t0 + 1800], [t0] being the time of the Create: both answer "User not
    available, try later" and write nothing. *)
Theorem created_record_refused_by_string_id (t0 now : Z) (req r d : request)
    (s : state) (n sn b p n' sn' b' p' : pyval) :
  req !! "name" = Some n -> req !! "surname" = Some sn ->
  req !! "birth" = Some b -> req !! "points" = Some p ->
  now < t0 + 1800 ->
  let uid := PStr (py_str (next_rowid (disk s))) in
  let s1 := (serve POST_user t0 req s).2 in
  r !! "id" = Some uid -> r !! "name" = Some n' -> r !! "surname" = Some sn' ->
  r !! "birth" = Some b' -> r !! "points" = Some p' ->
  d !! "id" = Some uid ->
  serve PUT_user now r s1 =
    (Ok [msg "User not available, try later"; ("id", JVal uid)],
     after s1 (disk s1) (kv s1) [EvExecute SelectIdById; EvKeys])
  /\ serve DELETE_user now d s1 =
    (Ok [msg "User not available, try later"; ("id", JVal uid)],
     after s1 (disk s1) (kv s1) [EvKeys]).
Proof.
  intros Hn Hsn Hb Hp Hnow uid s1 Hid Hn' Hsn' Hb' Hp' Hd.
  apply (string_id_rejected_while_locked now r d s1 (next_rowid (disk s))
           (person_of n sn b p) n' sn' b' p'); try assumption.
  - subst s1. rewrite (serve_add t0 req s n sn b p) by assumption.
    cbn [snd after kv]. apply setex_listed; [exact Hnow | apply prefix_lock_key].
  - subst s1. rewrite (serve_add t0 req s n sn b p) by assumption.
    cbn [snd after disk]. apply lookup_insert_eq.
Qed.

(** After the Create of [new_id] at [t0] on a key space of lock keys,
    the numeral of [new_id] is off the tested list from [t0 + 1800] on. *)
Lemma created_lock_expires (t0 now : Z) (req : request) (s : state)
    (n sn b p : pyval) :
  lock_entries (kv s) ->
  req !! "name" = Some n -> req !! "surname" = Some sn ->
  req !! "birth" = Some b -> req !! "points" = Some p ->
  t0 + 1800 <= now ->
  py_in (PStr (py_str (next_rowid (disk s))))
        (locked_keys now (serve POST_user t0 req s).2) = false.
Proof.
  intros Hle Hn Hsn Hb Hp Hnow.
  rewrite (serve_add t0 req s n sn b p) by assumption. cbn [snd].
  set (i := next_rowid (disk s)).
  destruct (py_in _ _) eqn:Hin; [exfalso | reflexivity].
  apply py_in_elem in Hin. unfold locked_keys, get_keys in Hin. cbn [after kv] in Hin.
  apply list_elem_of_fmap in Hin as (key & [= Hslice] & Hkey).
  apply keys_matching_elem in Hkey as (e & He & <- & Hlive & _).
  apply setex_at_elem in He as [[He Hne] | ->].
  - unfold lock_entries in Hle. rewrite Forall_forall in Hle.
    destruct (Hle e He) as [z Hz]. rewrite Hz in Hslice, Hne.
    unfold lock_key at 1 in Hslice. rewrite slice_lock_key in Hslice.
    apply py_str_inj in Hslice. subst z. now apply Hne.
  - unfold live in Hlive. cbn in Hlive. apply Z.ltb_lt in Hlive.
    unfold expire_after in Hlive. lia.
Qed.

(** X12.  On a key space holding lock keys only, the lock of a record
    created at [t0] is over at [t0 + 1800]: from then on Update and
    Delete naming it by its id written as a string are carried out. *)
Theorem string_id_accepted_after_expiry (t0 now : Z) (req r d : request)
    (s : state) (n sn b p n' sn' b' p' : pyval) :
  lock_entries (kv s) ->
  req !! "name" = Some n -> req !! "surname" = Some sn ->
  req !! "birth" = Some b -> req !! "points" = Some p ->
  t0 + 1800 <= now ->
  let new_id := next_rowid (disk s) in
  let uid := PStr (py_str new_id) in
  let s1 := (serve POST_user t0 req s).2 in
  r !! "id" = Some uid -> r !! "name" = Some n' -> r !! "surname" = Some sn' ->
  r !! "birth" = Some b' -> r !! "points" = Some p' ->
  d !! "id" = Some uid ->
  serve PUT_user now r s1 =
    (Ok [msg "User updated"; ("user", JList [n'; sn'; b'; p'; uid])],
     after s1 (<[new_id := person_of n' sn' b' p']> (disk s1)) (kv s1)
       [EvExecute SelectIdById; EvKeys; EvExecute UpdateById; EvCommit])
  /\ serve DELETE_user now d s1 =
    (Ok [msg "User deleted"; ("id", JVal uid)],
     after s1 (delete new_id (disk s1)) (kv s1)
       [EvKeys; EvExecute SelectIdById; EvExecute DeleteById; EvCommit]).
Proof.
  intros Hle Hn Hsn Hb Hp Hnow new_id uid s1 Hid Hn' Hsn' Hb' Hp' Hd.
  pose proof (created_lock_expires t0 now req s n sn b p Hle Hn Hsn Hb Hp Hnow) as Hout.
  fold new_id uid s1 in Hout.
  assert (lookup_param uid (disk s1) = Some (new_id, person_of n sn b p)) as Hl.
  { apply lookup_param_Some. split; [apply numeric_of_decimal|].
    subst s1. rewrite (serve_add t0 req s n sn b p) by assumption.
    cbn [snd after disk]. apply lookup_insert_eq. }
  rewrite (serve_update now r s1 uid n' sn' b' p') by assumption.
  rewrite (serve_delete now d s1 uid) by assumption.
  now rewrite Hl, Hout.
Qed.

(** X13.  Two facts about the key space are kept by every request on
    every route and by every run of the job: each key is the lock key of
    some id, and no key is stored twice. *)
Theorem lock_entries_kept (rt : route) (now : Z) (req : request)
    (raw : nat -> Z) (s : state) :
  lock_entries (kv s) -> NoDup (e_key <$> kv s) ->
  (lock_entries (kv (serve rt now req s).2)
   /\ NoDup (e_key <$> kv (serve rt now req s).2))
  /\ (lock_entries (kv (increment_points now raw s).2)
      /\ NoDup (e_key <$> kv (increment_points now raw s).2)).
Proof.
  intros Hle Hnd.
  rewrite serve_kv, increment_points_kv.
  split; [|auto].
  destruct rt; auto.
  destruct (some_missing _ req); [auto|].
  unfold lock, setex_at. split.
  - apply Forall_app. split.
    + unfold lock_entries in *. rewrite Forall_forall in *.
      intros e He. apply list_elem_of_In, filter_In in He as [He _].
      apply Hle. now apply list_elem_of_In.
    + constructor; [|constructor]. cbn. eauto.
  - rewrite fmap_app. apply NoDup_app. repeat split.
    + clear Hle. induction (kv s) as [|e k IH]; [constructor|].
      cbn [fmap list_fmap] in Hnd. apply NoDup_cons in Hnd as [Hout Hnd].
      cbn [List.filter]. destruct (negb _); [|auto].
      cbn [fmap list_fmap]. apply NoDup_cons. split; [|auto].
      intros Hin. apply Hout.
      apply list_elem_of_fmap in Hin as (e' & -> & He').
      apply list_elem_of_In, filter_In in He' as [He' _].
      apply list_elem_of_fmap. exists e'. split; [reflexivity|].
      now apply list_elem_of_In.
    + intros key Hin Hin'. cbn in Hin'. apply list_elem_of_singleton in Hin'.
      apply list_elem_of_fmap in Hin as (e & -> & He).
      apply list_elem_of_In, filter_In in He as [_ He].
      apply negb_true_iff, String.eqb_neq in He. contradiction.
    + cbn. apply NoDup_singleton.
Qed.

End Lifecycle.

(** ** Writes and the reads that follow *)

Section Writes.
Context `{NumericAffinity}.

(** X14.  An Update that goes through (the id selects a record and is
    not in the lock list) replaces the four fields of that record and of
    no other, keeps its integer id whatever form the id was sent in, and a
    Get with the same id then shows the new values. *)
Theorem update_then_get (now now' : Z) (r g : request) (s : state)
    (uid n sn b p : pyval) (i : Z) (q : person) :
  r !! "id" = Some uid -> r !! "name" = Some n -> r !! "surname" = Some sn ->
  r !! "birth" = Some b -> r !! "points" = Some p ->
  lookup_param uid (disk s) = Some (i, q) ->
  py_in uid (locked_keys now s) = false ->
  g !! "id" = Some uid ->
  let s1 := (serve PUT_user now r s).2 in
  (serve PUT_user now r s).1
    = Ok [msg "User updated"; ("user", JList [n; sn; b; p; uid])]
  /\ disk s1 = <[i := person_of n sn b p]> (disk s)
  /\ (forall j, j <> i -> disk s1 !! j = disk s !! j)
  /\ (serve GET_user now' g s1).1
     = Ok [msg "User found"; ("user", JRows [[PInt i; n; sn; b; p]])].
Proof.
  intros Hid Hn Hsn Hb Hp Hl Hout Hg s1. subst s1.
  rewrite (serve_get_user now' g _ uid Hg).
  rewrite (serve_update now r s uid n sn b p) by assumption.
  rewrite Hl, Hout. cbn [fst snd after disk].
  apply lookup_param_Some in Hl as [Hrow Hq].
  repeat split.
  - intros j Hj. now apply lookup_insert_ne.
  - unfold lookup_param. rewrite Hrow. cbn. now rewrite lookup_insert_eq.
Qed.

(** X15.  A Delete that goes through removes the selected record and no
    other and leaves the key space alone; after it, a Get with the same
    id answers "User not found", an Update "Nothing to update". *)
Theorem delete_then_get (now now' : Z) (d g r : request) (s : state)
    (uid n sn b p : pyval) (i : Z) (q : person) :
  d !! "id" = Some uid ->
  lookup_param uid (disk s) = Some (i, q) ->
  py_in uid (locked_keys now s) = false ->
  g !! "id" = Some uid ->
  r !! "id" = Some uid -> r !! "name" = Some n -> r !! "surname" = Some sn ->
  r !! "birth" = Some b -> r !! "points" = Some p ->
  let s1 := (serve DELETE_user now d s).2 in
  (serve DELETE_user now d s).1 = Ok [msg "User deleted"; ("id", JVal uid)]
  /\ disk s1 = delete i (disk s)
  /\ kv s1 = kv s
  /\ (serve GET_user now' g s1).1 = Ok [msg "User not found"; ("id", JVal uid)]
  /\ (serve PUT_user now' r s1).1 = Ok [msg "Nothing to update"].
Proof.
  intros Hd Hl Hout Hg Hid Hn Hsn Hb Hp s1. subst s1.
  rewrite (serve_get_user now' g _ uid Hg).
  rewrite (serve_update now' r _ uid n sn b p) by assumption.
  rewrite (serve_delete now d s uid) by assumption.
  rewrite Hl, Hout. cbn [fst snd after disk kv].
  apply lookup_param_Some in Hl as [Hrow Hq].
  assert (lookup_param uid (delete i (disk s)) = None) as ->.
  { unfold lookup_param. rewrite Hrow. cbn. now rewrite lookup_delete_eq. }
  auto.
Qed.

(** X16.  The lock test compares the id as text.  On a key space of
    lock keys, an id sent as a string that the store converts to [z] but
    that is not the numeral [str(z)] is never found in the lock list:
    Update and Delete sent with it are carried out on record [z] even
    while the lock key of [z] is live. *)
Theorem other_spelling_passes_lock (now : Z) (r d : request) (s : state)
    (str : string) (z : Z) (q : person) (n sn b p : pyval) :
  lock_entries (kv s) ->
  numeric_of_text str = Some z -> str <> py_str z ->
  disk s !! z = Some q ->
  r !! "id" = Some (PStr str) -> r !! "name" = Some n -> r !! "surname" = Some sn ->
  r !! "birth" = Some b -> r !! "points" = Some p ->
  d !! "id" = Some (PStr str) ->
  py_in (PStr str) (locked_keys now s) = false
  /\ serve PUT_user now r s =
    (Ok [msg "User updated"; ("user", JList [n; sn; b; p; PStr str])],
     after s (<[z := person_of n sn b p]> (disk s)) (kv s)
       [EvExecute SelectIdById; EvKeys; EvExecute UpdateById; EvCommit])
  /\ serve DELETE_user now d s =
    (Ok [msg "User deleted"; ("id", JVal (PStr str))],
     after s (delete z (disk s)) (kv s)
       [EvKeys; EvExecute SelectIdById; EvExecute DeleteById; EvCommit]).
Proof.
  intros Hle Hnum Hne Hq Hid Hn Hsn Hb Hp Hd.
  assert (py_in (PStr str) (locked_keys now s) = false) as Hout.
  { destruct (py_in _ _) eqn:Hin; [exfalso | reflexivity].
    destruct (locked_keys_numeral now s str Hle Hin) as (z' & -> & _).
    rewrite numeric_of_decimal in Hnum. injection Hnum as ->. now apply Hne. }
  split; [exact Hout|].
  assert (lookup_param (PStr str) (disk s) = Some (z, q)) as Hl.
  { apply lookup_param_Some. auto. }
  rewrite (serve_update now r s (PStr str) n sn b p) by assumption.
  rewrite (serve_delete now d s (PStr str)) by assumption.
  now rewrite Hl, Hout.
Qed.

End Writes.

(** ** The further properties at the concrete run *)

Lemma created_one_kv :
  kv created_one = [{| e_key := lock_key 1; e_value := "key"; e_expiry := 1800 |}].
Proof. reflexivity. Qed.

(** Record 1, created at time 0 and read one second later by ["1"]. *)
Lemma create_then_get_witness :
  (serve GET_user 1 {[ "id" := PStr "1" ]} (serve POST_user 0 alice empty_state).2).1
  = Ok [msg "User found";
        ("user", JRows [[PInt 1; PStr "A"; PStr "B"; PStr "2000-01-01"; PInt 10]])].
Proof.
  apply (create_then_get 0 1 alice {[ "id" := PStr "1" ]} empty_state
           (PStr "A") (PStr "B") (PStr "2000-01-01") (PInt 10) (PStr "1"));
    try reflexivity.
  right. reflexivity.
Defined.

(** The empty body. *)
Lemma view_without_id_raises_witness :
  get_user 1 ∅ created_one = (Raise (KeyError "id"), created_one)
  /\ update_user 1 ∅ created_one = (Raise (KeyError "id"), created_one)
  /\ delete_user_by_id 1 ∅ created_one
     = (Raise (KeyError "id"),
        {| disk := disk created_one; txn := txn created_one; kv := kv created_one;
           log := log created_one ++ [EvKeys] |}).
Proof. apply (view_without_id_raises 1 ∅ created_one). reflexivity. Defined.

(** The one lock of [created_one] expires at 1800. *)
Lemma job_without_locks_witness :
  increment_points 1800 (fun _ => 3) created_one
  = (Ok tt, after created_one (disk created_one) (kv created_one)
              [EvKeys; EvPrint (PrintStr "There isn't new users")]).
Proof.
  apply (job_without_locks 1800 (fun _ => 3) created_one).
  rewrite created_one_kv. repeat constructor. cbn. lia.
Defined.

(** Record 1 with 10 points, then record 2 with the text ["ten"]. *)
Lemma job_stops_at_non_integer_witness :
  exists s',
    increment_points 20 (fun _ => 3) created_text_points = (Raise TypeError, s')
    /\ (forall j z', [1] !! j = Some z' ->
          exists d, 1 <= d <= 9 /\ bumped (disk created_text_points) (disk s') z' d)
    /\ (forall z', z' ∉ [1] -> disk s' !! z' = disk created_text_points !! z')
    /\ disk s' !! 2
       = Some (person_of (PStr "A") (PStr "B") (PStr "2000-01-01") (PStr "ten")).
Proof.
  apply (job_stops_at_non_integer 20 (fun _ => 3) created_text_points
           [PStr "1"] [] (PStr "2") [1] 2
           (person_of (PStr "A") (PStr "B") (PStr "2000-01-01") (PStr "ten"))).
  - reflexivity.
  - repeat constructor. eexists _, _. split; [vm_compute; reflexivity | reflexivity].
  - refine (bool_decide_unpack (NoDup [1]) _). vm_compute. exact I.
  - vm_compute. reflexivity.
  - right. exists "ten". reflexivity.
Defined.

(** Record 1 created at time 0, asked for by ["1"] at time 1799. *)
Lemma created_record_refused_by_string_id_witness :
  let s1 := (serve POST_user 0 alice empty_state).2 in
  serve PUT_user 1799 (<["id" := PStr "1"]> alice) s1 =
    (Ok [msg "User not available, try later"; ("id", JVal (PStr "1"))],
     after s1 (disk s1) (kv s1) [EvExecute SelectIdById; EvKeys])
  /\ serve DELETE_user 1799 {[ "id" := PStr "1" ]} s1 =
    (Ok [msg "User not available, try later"; ("id", JVal (PStr "1"))],
     after s1 (disk s1) (kv s1) [EvKeys]).
Proof.
  apply (created_record_refused_by_string_id 0 1799 alice (<["id" := PStr "1"]> alice)
           {[ "id" := PStr "1" ]} empty_state
           (PStr "A") (PStr "B") (PStr "2000-01-01") (PInt 10)
           (PStr "A") (PStr "B") (PStr "2000-01-01") (PInt 10));
    reflexivity.
Defined.

(** The same at time 1800. *)
Lemma string_id_accepted_after_expiry_witness :
  let s1 := (serve POST_user 0 alice empty_state).2 in
  serve PUT_user 1800 (<["id" := PStr "1"]> (<["points" := PInt 99]> alice)) s1 =
    (Ok [msg "User updated";
         ("user", JList [PStr "A"; PStr "B"; PStr "2000-01-01"; PInt 99; PStr "1"])],
     after s1 (<[1 := person_of (PStr "A") (PStr "B") (PStr "2000-01-01") (PInt 99)]>
                 (disk s1)) (kv s1)
       [EvExecute SelectIdById; EvKeys; EvExecute UpdateById; EvCommit])
  /\ serve DELETE_user 1800 {[ "id" := PStr "1" ]} s1 =
    (Ok [msg "User deleted"; ("id", JVal (PStr "1"))],
     after s1 (delete 1 (disk s1)) (kv s1)
       [EvKeys; EvExecute SelectIdById; EvExecute DeleteById; EvCommit]).
Proof.
  apply (string_id_accepted_after_expiry 0 1800 alice
           (<["id" := PStr "1"]> (<["points" := PInt 99]> alice))
           {[ "id" := PStr "1" ]} empty_state
           (PStr "A") (PStr "B") (PStr "2000-01-01") (PInt 10)
           (PStr "A") (PStr "B") (PStr "2000-01-01") (PInt 99));
    first [reflexivity | constructor].
Defined.

(** A third Create and a run of the job on the state with two locks. *)
Lemma lock_entries_kept_witness :
  (lock_entries (kv (serve POST_user 20 alice created_two).2)
   /\ NoDup (e_key <$> kv (serve POST_user 20 alice created_two).2))
  /\ (lock_entries (kv (increment_points 20 (fun _ => 3) created_two).2)
      /\ NoDup (e_key <$> kv (increment_points 20 (fun _ => 3) created_two).2)).
Proof.
  apply (lock_entries_kept POST_user 20 alice (fun _ => 3) created_two).
  - change (kv created_two)
      with [{| e_key := lock_key 1; e_value := "key"; e_expiry := 1800 |};
            {| e_key := lock_key 2; e_value := "key"; e_expiry := 1805 |}].
    repeat constructor; cbn; eauto.
  - refine (bool_decide_unpack (NoDup (e_key <$> kv created_two)) _).
    vm_compute. exact I.
Defined.

(** Record 1 updated by ["1"] once its lock has expired. *)
Lemma update_then_get_witness :
  let r := <["id" := PStr "1"]> (<["points" := PInt 99]> alice) in
  let s1 := (serve PUT_user 1800 r created_one).2 in
  (serve PUT_user 1800 r created_one).1
    = Ok [msg "User updated";
          ("user", JList [PStr "A"; PStr "B"; PStr "2000-01-01"; PInt 99; PStr "1"])]
  /\ disk s1 = <[1 := person_of (PStr "A") (PStr "B") (PStr "2000-01-01") (PInt 99)]>
                 (disk created_one)
  /\ (forall j, j <> 1 -> disk s1 !! j = disk created_one !! j)
  /\ (serve GET_user 1801 {[ "id" := PStr "1" ]} s1).1
     = Ok [msg "User found";
           ("user", JRows [[PInt 1; PStr "A"; PStr "B"; PStr "2000-01-01"; PInt 99]])].
Proof.
  apply (update_then_get 1800 1801 (<["id" := PStr "1"]> (<["points" := PInt 99]> alice))
           {[ "id" := PStr "1" ]} created_one (PStr "1")
           (PStr "A") (PStr "B") (PStr "2000-01-01") (PInt 99) 1
           (person_of (PStr "A") (PStr "B") (PStr "2000-01-01") (PInt 10)));
    vm_compute; reflexivity.
Defined.

(** Record 1 deleted by ["1"] once its lock has expired. *)
Lemma delete_then_get_witness :
  let d : request := {[ "id" := PStr "1" ]} in
  let r := <["id" := PStr "1"]> alice in
  let s1 := (serve DELETE_user 1800 d created_one).2 in
  (serve DELETE_user 1800 d created_one).1
    = Ok [msg "User deleted"; ("id", JVal (PStr "1"))]
  /\ disk s1 = delete 1 (disk created_one)
  /\ kv s1 = kv created_one
  /\ (serve GET_user 1801 d s1).1 = Ok [msg "User not found"; ("id", JVal (PStr "1"))]
  /\ (serve PUT_user 1801 r s1).1 = Ok [msg "Nothing to update"].
Proof.
  apply (delete_then_get 1800 1801 {[ "id" := PStr "1" ]} {[ "id" := PStr "1" ]}
           (<["id" := PStr "1"]> alice) created_one (PStr "1")
           (PStr "A") (PStr "B") (PStr "2000-01-01") (PInt 10) 1
           (person_of (PStr "A") (PStr "B") (PStr "2000-01-01") (PInt 10)));
    vm_compute; reflexivity.
Defined.

(** Record 1, one second after its creation, named as ["01"]. *)
Lemma other_spelling_passes_lock_witness :
  let r := <["id" := PStr "01"]> (<["points" := PInt 99]> alice) in
  let d : request := {[ "id" := PStr "01" ]} in
  py_in (PStr "01") (locked_keys 1 created_one) = false
  /\ serve PUT_user 1 r created_one =
    (Ok [msg "User updated";
         ("user", JList [PStr "A"; PStr "B"; PStr "2000-01-01"; PInt 99; PStr "01"])],
     after created_one
       (<[1 := person_of (PStr "A") (PStr "B") (PStr "2000-01-01") (PInt 99)]>
          (disk created_one)) (kv created_one)
       [EvExecute SelectIdById; EvKeys; EvExecute UpdateById; EvCommit])
  /\ serve DELETE_user 1 d created_one =
    (Ok [msg "User deleted"; ("id", JVal (PStr "01"))],
     after created_one (delete 1 (disk created_one)) (kv created_one)
       [EvKeys; EvExecute SelectIdById; EvExecute DeleteById; EvCommit]).
Proof.
  apply (other_spelling_passes_lock 1 (<["id" := PStr "01"]> (<["points" := PInt 99]> alice))
           {[ "id" := PStr "01" ]} created_one "01" 1
           (person_of (PStr "A") (PStr "B") (PStr "2000-01-01") (PInt 10))
           (PStr "A") (PStr "B") (PStr "2000-01-01") (PInt 99));
    try (vm_compute; reflexivity).
  - rewrite created_one_kv. repeat constructor. cbn. eauto.
  - vm_compute. discriminate.
Defined.
